(** * BFS user file-system API (fs.c): a shallow embedding

    The functions of [fs.c] ([fsOpen], [fsRead], [fsSeek], [fsTell], [fsSize],
    [fsWrite]) are transcribed statement by statement over an explicit
    file-system state.  The layer below them ([bfs*], [bio*], [fs.h]) is not
    part of the sources at hand; each of its functions used by [fs.c] is
    modelled from the design document and marked as such. *)

From Stdlib Require Import ZArith Lia.
From stdpp Require Import gmap strings list fin_maps.

Local Open Scope Z_scope.

(** ** Machine integers *)

(** [i32] arithmetic: the value of a 32-bit two's complement result. *)
Definition wrap32 (z : Z) : Z := (z + 2^31) mod 2^32 - 2^31.

Definition INT_MAX : Z := 2^31 - 1.

(** [MIN] of [fs.h], the usual macro. *)
Definition MIN (a b : Z) : Z := if a <? b then a else b.

(** stdio's [whence] constants. *)
Definition SEEK_SET : Z := 0.
Definition SEEK_CUR : Z := 1.
Definition SEEK_END : Z := 2.

(** Modelled from the spec: the constant [BYTESPERBLOCK] of the absent [fs.h];
    the design document fixes the block size of its reference scenario at 512
    bytes. *)
Definition BYTESPERBLOCK : Z := 512.

(** ** Error codes *)

(** The codes named in [fs.c], followed by three that only the design document
    names: descriptor table full, free list exhausted, internal read fault. *)
Inductive errno : Type :=
| EFNF | EBADREAD | EBADCURS | EBADWHENCE | ENODBN
| EOFTFULL | EDISKFULL | EREADFAULT.

(** An [i32] result that is either an ordinary value or a distinguished
    sentinel. *)
Inductive rv : Type :=
| Val (z : Z)
| Err (e : errno).

(** ** State *)

(** One open-file-table entry: [g_oft[ofte].inum], [.curs], [.refs]. *)
Record OFTE : Type := mkOFTE { inum : Z; curs : Z; refs : Z }.

(** An inode: logical size in bytes and the FBN -> DBN chain. *)
Record Inode : Type := mkInode { isize : Z; chain : gmap Z Z }.

(** The whole file system: open file table (a free slot is [None]), inode
    table, free list, block device contents and directory. *)
Record BFS : Type := mkBFS {
  g_oft : list (option OFTE);
  inodes : gmap Z Inode;
  freelist : list Z;
  disk : gmap Z (list Z);
  dir : gmap string Z
}.

Definition set_oft (o : list (option OFTE)) (st : BFS) : BFS :=
  mkBFS o (inodes st) (freelist st) (disk st) (dir st).

Definition set_disk (d : gmap Z (list Z)) (st : BFS) : BFS :=
  mkBFS (g_oft st) (inodes st) (freelist st) d (dir st).

(** ** Outcomes of a call *)

(** A call returns a value in a new state, terminates the process through
    [FATAL], or leaves the behaviour defined by neither the C code nor the
    design document (an invalid descriptor, a negative [memcpy] length, a
    device access at a sentinel block number). *)
Inductive outcome (A : Type) : Type :=
| Done (a : A) (st : BFS)
| Abort (e : errno)
| Undefined.

Arguments Done {A} a st.
Arguments Abort {A} e.
Arguments Undefined {A}.

Definition M (A : Type) : Type := BFS -> outcome A.

Definition ret {A} (a : A) : M A := fun st => Done a st.

Definition bind {A B} (m : M A) (k : A -> M B) : M B :=
  fun st => match m st with
            | Done a st' => k a st'
            | Abort e => Abort e
            | Undefined => Undefined
            end.

(** Modelled from the spec: the macro [FATAL] of the absent [fs.h].  [fsFormat]
    and [fsMount] call it exactly where the design document has the process
    terminate (backing store cannot be created, backing store absent): it is
    the fatal tier, which ends the process and returns nothing. *)
Definition FATAL {A} (e : errno) : M A := fun _ => Abort e.

Definition undefined {A} : M A := fun _ => Undefined.

Notation "'let*' x := m 'in' k" := (bind m (fun x => k))
  (at level 10, x name, m at level 100, k at level 200).
Notation "m ;;; k" := (bind m (fun _ => k))
  (at level 100, k at level 200, right associativity).

(** ** Buffers *)

(** [memset(buf, 0, BYTESPERBLOCK)]. *)
Definition zeroBlock : list Z := replicate (Z.to_nat BYTESPERBLOCK) 0.

(** [memcpy(&dst[di], &src[si], n)] for in-range arguments. *)
Definition memcpy (dst : list Z) (di : Z) (src : list Z) (si n : Z) : list Z :=
  take (Z.to_nat di) dst
  ++ take (Z.to_nat n) (drop (Z.to_nat si) src)
  ++ drop (Z.to_nat (di + n)) dst.

(** The counting loop at the end of [fsRead]: the number of zero bytes at the
    end of a block, scanning from the last index down. *)
Fixpoint countZeros (revBuf : list Z) : Z :=
  match revBuf with
  | [] => 0
  | b :: rest => if b =? 0 then 1 + countZeros rest else 0
  end.

Definition emptyCountOf (countBuffer : list Z) : Z := countZeros (rev countBuffer).

(** ** The layer below [fs.c] *)

(** Modelled from the spec: [bfsFdToInum], absent; a descriptor is the index
    of its open-file-table entry and yields the entry's inode number. *)
Definition bfsFdToInum (fd : Z) : M Z := fun st =>
  if fd <? 0 then Undefined
  else match g_oft st !! Z.to_nat fd with
       | Some (Some e) => Done (inum e) st
       | _ => Undefined
       end.

Fixpoint findSlot (i : Z) (o : list (option OFTE)) : option nat :=
  match o with
  | [] => None
  | Some e :: o' => if inum e =? i then Some O else S <$> findSlot i o'
  | None :: o' => S <$> findSlot i o'
  end.

(** Modelled from the spec: [bfsFindOFTE], absent; the slot index of the entry
    bound to an inode number, found by scanning the table. *)
Definition bfsFindOFTE (i : Z) : M Z := fun st =>
  match findSlot i (g_oft st) with
  | Some n => Done (Z.of_nat n) st
  | None => Undefined
  end.

(** Modelled from the spec: [bfsTell], absent; the cursor of a descriptor,
    read from the entry that [bfsFindOFTE] gives for its inode number. *)
Definition bfsTell (fd : Z) : M Z :=
  let* i := bfsFdToInum fd in
  let* ofte := bfsFindOFTE i in
  fun st => match g_oft st !! Z.to_nat ofte with
            | Some (Some e) => Done (curs e) st
            | _ => Undefined
            end.

Fixpoint freeSlot (o : list (option OFTE)) : option nat :=
  match o with
  | [] => None
  | None :: _ => Some O
  | Some _ :: o' => S <$> freeSlot o'
  end.

(** Modelled from the spec: [bfsInumToFd], absent; binds an inode number to a
    free slot with cursor 0 and reference count 1, one slot per call, and
    returns the slot index; a full table gives the sentinel. *)
Definition bfsInumToFd (i : Z) : M rv := fun st =>
  match freeSlot (g_oft st) with
  | Some n => Done (Val (Z.of_nat n))
                   (set_oft (<[n := Some (mkOFTE i 0 1)]> (g_oft st)) st)
  | None => Done (Err EOFTFULL) st
  end.

(** Modelled from the spec: [bfsLookupFile], absent; the directory maps a name
    to an inode number or gives the not-found sentinel. *)
Definition bfsLookupFile (fname : string) : M rv := fun st =>
  match dir st !! fname with
  | Some i => Done (Val i) st
  | None => Done (Err EFNF) st
  end.

(** Modelled from the spec: [bfsGetSize], absent; the logical size recorded in
    the inode. *)
Definition bfsGetSize (i : Z) : M Z := fun st =>
  match inodes st !! i with
  | Some ino => Done (isize ino) st
  | None => Undefined
  end.

(** Modelled from the spec: [bfsFbnToDbn], absent; resolves a file block
    number through the inode's chain, the sentinel [ENODBN] meaning
    "unmapped". *)
Definition bfsFbnToDbn (i fbn : Z) : M rv := fun st =>
  match inodes st !! i with
  | Some ino => match chain ino !! fbn with
                | Some d => Done (Val d) st
                | None => Done (Err ENODBN) st
                end
  | None => Undefined
  end.

(** Modelled from the spec: [bfsAllocBlock], absent; takes one block from the
    free list, maps it at position [fbn] of the chain and updates the size
    bookkeeping: the chain has gained one block and the size gains one block
    of bytes, which keeps the data model's invariant that the size never
    exceeds the blocks of the chain times the block size.  With an empty free
    list it fails with a sentinel and changes nothing. *)
Definition bfsAllocBlock (i fbn : Z) : M rv := fun st =>
  match inodes st !! i with
  | None => Undefined
  | Some ino =>
      match freelist st with
      | [] => Done (Err EDISKFULL) st
      | d :: fl =>
          Done (Val 0)
               (mkBFS (g_oft st)
                      (<[i := mkInode (isize ino + BYTESPERBLOCK)
                                      (<[fbn := d]> (chain ino))]> (inodes st))
                      fl (disk st) (dir st))
      end
  end.

(** Modelled from the spec: [bioWrite], absent; the block device stores a
    whole block under a physical block number.  A sentinel is no block
    number. *)
Definition bioWrite (dbn : rv) (buf : list Z) : M Z := fun st =>
  match dbn with
  | Val d => Done 0 (set_disk (<[d := buf]> (disk st)) st)
  | Err _ => Undefined
  end.

(** Modelled from the spec: [bfsRead], absent; fetches the block mapped at a
    file block number; a block that cannot be fetched is the internal read
    fault on which a read aborts. *)
Definition bfsRead (i fbn : Z) : M (list Z) :=
  let* dbn := bfsFbnToDbn i fbn in
  fun st => match dbn with
            | Val d => match disk st !! d with
                       | Some b => Done b st
                       | None => Abort EREADFAULT
                       end
            | Err _ => Abort EREADFAULT
            end.

(** ** fs.c *)

(** [fsOpen]. *)
Definition fsOpen (fname : string) : M rv :=
  let* r := bfsLookupFile fname in
  match r with
  | Err e => ret (Err e)
  | Val i => bfsInumToFd i
  end.

(** [fsTell]. *)
Definition fsTell (fd : Z) : M Z := bfsTell fd.

(** [fsSize]. *)
Definition fsSize (fd : Z) : M Z :=
  let* i := bfsFdToInum fd in
  bfsGetSize i.

(** [g_oft[ofte].curs = c]; the index comes from [bfsFindOFTE]. *)
Definition setCurs (ofte c : Z) : M unit := fun st =>
  match g_oft st !! Z.to_nat ofte with
  | Some (Some e) =>
      Done tt (set_oft (<[Z.to_nat ofte := Some (mkOFTE (inum e) c (refs e))]> (g_oft st)) st)
  | _ => Undefined
  end.

Definition getCurs (ofte : Z) : M Z := fun st =>
  match g_oft st !! Z.to_nat ofte with
  | Some (Some e) => Done (curs e) st
  | _ => Undefined
  end.

(** [fsSeek]. *)
Definition fsSeek (fd offset whence : Z) : M Z :=
  if offset <? 0 then FATAL EBADCURS
  else
    let* i := bfsFdToInum fd in
    let* ofte := bfsFindOFTE i in
    if whence =? SEEK_SET then
      setCurs ofte offset ;;; ret 0
    else if whence =? SEEK_CUR then
      (let* c := getCurs ofte in setCurs ofte (wrap32 (c + offset))) ;;; ret 0
    else if whence =? SEEK_END then
      (let* e := fsSize fd in setCurs ofte (wrap32 (e + offset))) ;;; ret 0
    else FATAL EBADWHENCE.

(** The byte count of one block step, written twice in [fs.c] ([readCount] in
    [fsRead], [writeCount] in [fsWrite]): up to the end of the block when the
    cursor is inside it, else up to a whole block. *)
Definition blockCount (cursorIdx numb : Z) : Z :=
  if 0 <? cursorIdx then
    let bufCount := BYTESPERBLOCK - cursorIdx in
    if bufCount <? numb then bufCount else numb
  else MIN BYTESPERBLOCK numb.

(** The exit of the block loop of [fsRead]: an early [return], or falling out
    of the [while] with the loop variables as they stand. *)
Inductive readExit : Type :=
| ReadReturn (r : rv)
| ReadFallthrough (fbn : Z) (tempBuf : list Z).

(** The [while (numb > 0)] loop of [fsRead].  [tempBuf] holds the bytes staged
    so far, so [bufIdx] is its length.  Every iteration lowers [numb] by at
    least one, hence [fuel] = the initial [numb] always suffices. *)
Fixpoint fsRead_loop (fuel : nat) (fd i : Z) (numb cursorIdx fbn : Z)
    (tempBuf : list Z) : M readExit :=
  if numb <=? 0 then ret (ReadFallthrough fbn tempBuf)
  else
    match fuel with
    | O => undefined
    | S fuel' =>
        let* readBuf := bfsRead i fbn in
        let readCount := blockCount cursorIdx numb in
        (* cursorIdx = 0 is assigned before the copy in the first branch *)
        let cursorIdx := if 0 <? cursorIdx then 0 else cursorIdx in
        if cursorIdx <? 0 then undefined
        else
          let tempBuf := tempBuf ++ take (Z.to_nat readCount) (drop (Z.to_nat cursorIdx) readBuf) in
          let numb := numb - readCount in
          let* sz := fsSize fd in
          if sz <? wrap32 (fbn * BYTESPERBLOCK) then ret (ReadReturn (Err EBADREAD))
          else fsRead_loop fuel' fd i numb cursorIdx (wrap32 (fbn + 1)) tempBuf
    end.

(** [fsRead]: the result is the returned [i32] together with the caller's
    buffer after the call.  A request of [numb <= 0] bytes declares a
    variable-length array without elements and then tests its first one, and
    a caller's buffer shorter than the final copy is overrun: both are left
    undefined. *)
Definition fsRead (fd numb : Z) (buf : list Z) : M (rv * list Z) :=
  if numb <=? 0 then undefined
  else
    let totalBytes := numb in
    let* i := bfsFdToInum fd in
    let* cursor := bfsTell fd in
    let cursorIdx := Z.rem cursor BYTESPERBLOCK in
    let fbn := Z.quot cursor BYTESPERBLOCK in
    let* ex := fsRead_loop (Z.to_nat numb) fd i numb cursorIdx fbn [] in
    match ex with
    | ReadReturn r => ret (r, buf)
    | ReadFallthrough fbn tempBuf =>
        let* totalBytes :=
          match tempBuf with
          | b0 :: _ =>
              if b0 =? 0 then ret totalBytes
              else
                let* countBuffer := bfsRead i (fbn - 1) in
                ret (totalBytes - emptyCountOf countBuffer)
          | [] => undefined
          end in
        if (totalBytes <? 0) || (Z.of_nat (length buf) <? totalBytes) then undefined
        else
          let buf := memcpy buf 0 tempBuf 0 totalBytes in
          fsSeek fd totalBytes SEEK_CUR ;;;
          ret (Val totalBytes, buf)
    end.

(** The "alloc if not mapped" block of [fsWrite], which occurs before the
    loop and again at the end of every iteration: resolve [fbn]; when it is
    unmapped allocate it, resolve again and write a zeroed block there. *)
Definition mapOrAlloc (i fbn : Z) : M rv :=
  let* dbn := bfsFbnToDbn i fbn in
  match dbn with
  | Err ENODBN =>
      bfsAllocBlock i fbn ;;;
      let allocBuf := zeroBlock in
      let* dbn := bfsFbnToDbn i fbn in
      bioWrite dbn allocBuf ;;;
      ret dbn
  | _ => ret dbn
  end.

(** The [while (numb > 0)] loop of [fsWrite]. *)
Fixpoint fsWrite_loop (fuel : nat) (fd i : Z) (tempBuf : list Z)
    (numb cursorIdx bufIdx fbn : Z) (dbn : rv) : M unit :=
  if numb <=? 0 then ret tt
  else
    match fuel with
    | O => undefined
    | S fuel' =>
        let* writeBuf := bfsRead i fbn in
        let writeCount := blockCount cursorIdx numb in
        if cursorIdx <? 0 then undefined
        else
          let writeBuf := memcpy writeBuf cursorIdx tempBuf bufIdx writeCount in
          let cursorIdx := 0 in
          let bufIdx := bufIdx + writeCount in
          let numb := numb - writeCount in
          bioWrite dbn writeBuf ;;;
          fsSeek fd writeCount SEEK_CUR ;;;
          let fbn := wrap32 (fbn + 1) in
          let* dbn := mapOrAlloc i fbn in
          fsWrite_loop fuel' fd i tempBuf numb cursorIdx bufIdx fbn dbn
    end.

(** [fsWrite].  A negative [numb] sizes the staging array negatively and a
    caller's buffer shorter than [numb] is read past its end: both are left
    undefined.  With [numb = 0] nothing is staged, the first "alloc if not
    mapped" step still runs and the loop is skipped. *)
Definition fsWrite (fd numb : Z) (buf : list Z) : M Z :=
  if (numb <? 0) || (Z.of_nat (length buf) <? numb) then undefined
  else
    let tempBuf := take (Z.to_nat numb) buf in
    let bufIdx := 0 in
    let* i := bfsFdToInum fd in
    let* cursor := bfsTell fd in
    let cursorIdx := Z.rem cursor BYTESPERBLOCK in
    let fbn := Z.quot cursor BYTESPERBLOCK in
    let* dbn := mapOrAlloc i fbn in
    fsWrite_loop (Z.to_nat numb) fd i tempBuf numb cursorIdx bufIdx fbn dbn ;;;
    ret 0.

(** ** Sample states *)

(** A mounted disk holding one empty file ["a.txt"] (inode 1) and a second
    empty file ["b.txt"] (inode 2), with a four-slot open file table and the
    given free blocks. *)
Definition freshDisk (free : list Z) : BFS :=
  mkBFS [None; None; None; None]
        (<[1 := mkInode 0 ∅]> (<[2 := mkInode 0 ∅]> ∅))
        free ∅
        (<["a.txt"%string := 1]> (<["b.txt"%string := 2]> ∅)).

(** The state reached from [st] when the call returns, else [st]. *)
Definition after {A} (m : M A) (st : BFS) : BFS :=
  match m st with Done _ st' => st' | _ => st end.

Definition sizeOf (i : Z) (st : BFS) : option Z := isize <$> (inodes st !! i).
Definition chainOf (i : Z) (st : BFS) : gmap Z Z :=
  match inodes st !! i with Some ino => chain ino | None => ∅ end.


(** The cursor value that [fsSeek] stores, given the current cursor and
    size. *)
Definition seekTarget (whence offset c s : Z) : Z :=
  if whence =? SEEK_SET then offset
  else if whence =? SEEK_CUR then wrap32 (c + offset)
  else wrap32 (s + offset).

(** The position the design document gives a seek: [offset] itself, the
    cursor plus [offset], or the size plus [offset]. *)
Definition seekPosition (whence offset c s : Z) : Z :=
  if whence =? SEEK_SET then offset
  else if whence =? SEEK_CUR then c + offset
  else s + offset.

(** Two descriptors opened one after the other on ["a.txt"]. *)
Definition opened1 : BFS := after (fsOpen "a.txt") (freshDisk [10; 11; 12; 13; 14]).
Definition opened2 : BFS := after (fsOpen "a.txt") opened1.

(** ["a.txt"] after 300 bytes ['X'] were written at offset 0 and the cursor
    was moved back to 0. *)
Definition written300 : BFS :=
  after (fsSeek 0 0 SEEK_SET) (after (fsWrite 0 300 (replicate 300 88)) opened1).

(** ["a.txt"] after a seek to offset 1536 (the start of file block 3) in the
    empty file and a write of the single byte ['X'] there. *)
Definition holeWritten : BFS :=
  after (fsWrite 0 1 [88]) (after (fsSeek 0 1536 SEEK_SET) opened1).

(** The loop variables of [fsWrite] against the cursor [c] and the byte count
    [n] of the call: the staging index and the bytes left add up to [n], and
    while bytes are left the block position is the cursor plus the staging
    index. *)
Definition writePos (c n numb cidx bidx fbn : Z) : Prop :=
  0 <= cidx < BYTESPERBLOCK /\ 0 <= bidx /\ 0 <= numb /\ bidx + numb = n /\
  (0 < numb -> fbn * BYTESPERBLOCK + cidx = c + bidx).

(** The free list has no duplicates and shares no block with the chain of
    inode [i]. *)
Definition allocSound (i : Z) (st : BFS) : Prop :=
  NoDup (freelist st) /\
  forall f d, chainOf i st !! f = Some d -> d ∉ freelist st.


(** The empty file after a seek to offset 1546, ten bytes into file block 3. *)
Definition seeked1546 : BFS := after (fsSeek 0 1546 SEEK_SET) opened1.

(** ** Further vocabulary *)

(** Modelled from the spec: [bfsDerefOFT], absent; decrements the reference
    count of the slot bound to the inode number and, when the count has
    reached 0, returns the slot to the free pool. *)
Definition bfsDerefOFT (i : Z) : M Z :=
  let* ofte := bfsFindOFTE i in
  fun st =>
    match g_oft st !! Z.to_nat ofte with
    | Some (Some e) =>
        let r := refs e - 1 in
        Done 0 (set_oft (<[Z.to_nat ofte :=
                           if r =? 0 then None else Some (mkOFTE (inum e) (curs e) r)]>
                          (g_oft st)) st)
    | _ => Undefined
    end.

(** [fsClose]. *)
Definition fsClose (fd : Z) : M Z :=
  let* i := bfsFdToInum fd in
  bfsDerefOFT i ;;;
  ret 0.

(** The byte of file [i] at file offset [off], as the device holds it: the
    chain gives the disk block of the file block, the block gives the byte. *)
Definition byteAt (i off : Z) (st : BFS) : option Z :=
  match chainOf i st !! (off / BYTESPERBLOCK) with
  | Some d =>
      match disk st !! d with
      | Some blk => blk !! Z.to_nat (off mod BYTESPERBLOCK)
      | None => None
      end
  | None => None
  end.

(** Every mapped block of file [i] is on the device as a whole block. *)
Definition blocksWhole (i : Z) (st : BFS) : Prop :=
  forall f d, chainOf i st !! f = Some d ->
    exists blk, disk st !! d = Some blk /\ Z.of_nat (length blk) = BYTESPERBLOCK.

(** No disk block is mapped at two file blocks of file [i]. *)
Definition chainInj (i : Z) (st : BFS) : Prop :=
  forall f1 f2 d, chainOf i st !! f1 = Some d -> chainOf i st !! f2 = Some d -> f1 = f2.

(** The data model's invariants for one file: free list and chain sound,
    chain without a shared block, blocks whole. *)
Definition fileSound (i : Z) (st : BFS) : Prop :=
  allocSound i st /\ chainInj i st /\ blocksWhole i st.

(** The file offset whose byte [fsRead] delivers as byte [k] of a request at
    cursor [c]: in the cursor's block the copy starts at the beginning of the
    block, in the blocks after it at the expected offset. *)
Definition readOffset (c k : Z) : Z :=
  if k <? BYTESPERBLOCK - c mod BYTESPERBLOCK
  then c - c mod BYTESPERBLOCK + k
  else c + k.

(** ["a.txt"] open on descriptor 0 and ["b.txt"] open on descriptor 1. *)
Definition openedAB : BFS := after (fsOpen "b.txt") opened1.


(** ["a.txt"] after 10 bytes ['X'] were written at offset 0 and the cursor
    was moved back to 0. *)
Definition written10 : BFS :=
  after (fsSeek 0 0 SEEK_SET) (after (fsWrite 0 10 (replicate 10 88)) opened1).

(** * Properties *)

(** ** The outcome monad *)

Lemma bind_Done {A B} (m : M A) (k : A -> M B) st b st' :
  bind m k st = Done b st' ->
  exists a s1, m st = Done a s1 /\ k a s1 = Done b st'.
Proof.
  unfold bind. destruct (m st) as [a s1| |]; [eauto | discriminate | discriminate].
Qed.

Lemma bind_eq_Done {A B} (m : M A) (k : A -> M B) st a s1 :
  m st = Done a s1 -> bind m k st = k a s1.
Proof. unfold bind. intros ->. reflexivity. Qed.

Lemma ret_Done {A} (a b : A) st st' : ret a st = Done b st' -> a = b /\ st = st'.
Proof. unfold ret. intros H. injection H. auto. Qed.

(** Splits a hypothesis [bind m k st = Done b st'] into its two runs. *)
Ltac inv_bind H :=
  let a := fresh "a" in
  let s := fresh "s" in
  let H1 := fresh H "_1" in
  let H2 := fresh H "_2" in
  apply bind_Done in H; destruct H as (a & s & H1 & H2).

Tactic Notation "inv_bind_as" hyp(H) ident(a) ident(s) :=
  let H1 := fresh H "_1" in
  let H2 := fresh H "_2" in
  apply bind_Done in H; destruct H as (a & s & H1 & H2).

(** ** Machine integers *)

Lemma wrap32_id z : - 2^31 <= z <= INT_MAX -> wrap32 z = z.
Proof.
  unfold wrap32, INT_MAX. intros H.
  rewrite Z.mod_small by lia. lia.
Qed.

Lemma BYTESPERBLOCK_pos : 0 < BYTESPERBLOCK.
Proof. reflexivity. Qed.

(** ** The open file table *)

Lemma findSlot_Some i o n :
  findSlot i o = Some n -> exists e, o !! n = Some (Some e) /\ inum e = i.
Proof.
  revert n. induction o as [|[e|] o IH]; simpl; intros n H; [discriminate | |].
  - destruct (inum e =? i) eqn:E.
    + injection H as <-. exists e. split; [reflexivity | lia].
    + destruct (findSlot i o) as [m|]; [|discriminate].
      injection H as <-. apply (IH m eq_refl).
  - destruct (findSlot i o) as [m|]; [|discriminate].
    injection H as <-. apply (IH m eq_refl).
Qed.

Lemma findSlot_bound (o : list (option OFTE)) n e :
  o !! n = Some (Some e) -> exists m, findSlot (inum e) o = Some m.
Proof.
  revert n. induction o as [|[e'|] o IH]; intros [|n] H; simpl in *; try discriminate.
  - injection H as ->. rewrite Z.eqb_refl. eauto.
  - destruct (inum e' =? inum e); [eauto|].
    destruct (IH n H) as [m ->]. simpl. eauto.
  - destruct (IH n H) as [m ->]. simpl. eauto.
Qed.

(** Overwriting an entry by one with the same inode number moves no slot. *)
Lemma findSlot_insert (o : list (option OFTE)) k e e' i :
  o !! k = Some (Some e) -> inum e' = inum e ->
  findSlot i (<[k := Some e']> o) = findSlot i o.
Proof.
  revert k. induction o as [|x o IH]; intros [|k] H He; simpl in *; try discriminate.
  - injection H as ->. rewrite He. reflexivity.
  - rewrite (IH k H He). reflexivity.
Qed.

Lemma bfsFdToInum_Done fd st i st' :
  bfsFdToInum fd st = Done i st' ->
  st' = st /\ 0 <= fd /\
  exists e, g_oft st !! Z.to_nat fd = Some (Some e) /\ inum e = i.
Proof.
  unfold bfsFdToInum. destruct (fd <? 0) eqn:E; [discriminate|].
  destruct (g_oft st !! Z.to_nat fd) as [[e|]|] eqn:L; try discriminate.
  intros H. injection H as <- <-. repeat split; [lia | eauto].
Qed.

Lemma bfsFindOFTE_Done i st n st' :
  bfsFindOFTE i st = Done n st' ->
  st' = st /\ exists k, n = Z.of_nat k /\ findSlot i (g_oft st) = Some k.
Proof.
  unfold bfsFindOFTE. destruct (findSlot i (g_oft st)) as [k|] eqn:F; [|discriminate].
  intros H. injection H as <- <-. eauto.
Qed.

Lemma bfsGetSize_Done i st s st' :
  bfsGetSize i st = Done s st' ->
  st' = st /\ exists ino, inodes st !! i = Some ino /\ isize ino = s.
Proof.
  unfold bfsGetSize. destruct (inodes st !! i) as [ino|]; [|discriminate].
  intros H. injection H as <- <-. eauto.
Qed.

Lemma fsSize_Done fd st s st' :
  fsSize fd st = Done s st' -> st' = st.
Proof.
  unfold fsSize. intros H. inv_bind H.
  apply bfsFdToInum_Done in H_1 as [-> _].
  apply bfsGetSize_Done in H_2 as [-> _]. reflexivity.
Qed.

(** The cursor that [bfsTell] reports is the one stored in the slot that
    [bfsFindOFTE] gives for the descriptor's inode number. *)
Lemma bfsTell_Done fd st c st' :
  bfsTell fd st = Done c st' ->
  st' = st /\
  exists i k e, bfsFdToInum fd st = Done i st /\ findSlot i (g_oft st) = Some k /\
                g_oft st !! k = Some (Some e) /\ curs e = c /\ inum e = i.
Proof.
  unfold bfsTell. intros H. inv_bind H. inv_bind H_2.
  pose proof H_1 as H_1'.
  apply bfsFdToInum_Done in H_1 as [-> _].
  apply bfsFindOFTE_Done in H_2_1 as [-> (k & -> & F)].
  rewrite Nat2Z.id in H_2_2.
  destruct (findSlot_Some _ _ _ F) as (e & L & I).
  rewrite L in H_2_2. injection H_2_2 as <- <-.
  split; [reflexivity|]. exists a, k, e. auto.
Qed.

Lemma bfsTell_of_slot fd st i k e :
  bfsFdToInum fd st = Done i st -> findSlot i (g_oft st) = Some k ->
  g_oft st !! k = Some (Some e) ->
  bfsTell fd st = Done (curs e) st.
Proof.
  intros H F L. unfold bfsTell.
  rewrite (bind_eq_Done _ _ _ _ _ H).
  assert (B : bfsFindOFTE i st = Done (Z.of_nat k) st)
    by (unfold bfsFindOFTE; rewrite F; reflexivity).
  rewrite (bind_eq_Done _ _ _ _ _ B).
  rewrite Nat2Z.id, L. reflexivity.
Qed.

(** [setCurs] rewrites one cursor and leaves every inode number in place. *)
Lemma setCurs_Done ofte c st u st' :
  setCurs ofte c st = Done u st' ->
  exists e, g_oft st !! Z.to_nat ofte = Some (Some e) /\
    st' = set_oft (<[Z.to_nat ofte := Some (mkOFTE (inum e) c (refs e))]> (g_oft st)) st.
Proof.
  unfold setCurs. destruct (g_oft st !! Z.to_nat ofte) as [[e|]|] eqn:L; try discriminate.
  intros H. injection H as <-. eauto.
Qed.

Lemma bfsFdToInum_set_oft fd st k e c :
  g_oft st !! k = Some (Some e) ->
  bfsFdToInum fd (set_oft (<[k := Some (mkOFTE (inum e) c (refs e))]> (g_oft st)) st)
  = match bfsFdToInum fd st with
    | Done i _ => Done i (set_oft (<[k := Some (mkOFTE (inum e) c (refs e))]> (g_oft st)) st)
    | o => o
    end.
Proof.
  intros L. unfold bfsFdToInum. simpl.
  destruct (fd <? 0); [reflexivity|].
  destruct (decide (k = Z.to_nat fd)) as [->|Hne].
  - rewrite list_lookup_insert_eq by (eapply lookup_lt_Some; eauto).
    rewrite L. reflexivity.
  - rewrite list_lookup_insert_ne by done.
    destruct (g_oft st !! Z.to_nat fd) as [[e'|]|]; reflexivity.
Qed.

(** ** fsSeek *)

(** Every returning [fsSeek] returns 0, had a non-negative offset, and
    changed exactly the cursor of the slot found for the inode number. *)
Lemma fsSeek_Done fd offset whence st r st' :
  fsSeek fd offset whence st = Done r st' ->
  r = 0 /\ 0 <= offset /\
  exists i k e c',
    bfsFdToInum fd st = Done i st /\ findSlot i (g_oft st) = Some k /\
    g_oft st !! k = Some (Some e) /\
    st' = set_oft (<[k := Some (mkOFTE (inum e) c' (refs e))]> (g_oft st)) st.
Proof.
  unfold fsSeek. destruct (offset <? 0) eqn:E; [discriminate|].
  intros H. inv_bind H. inv_bind H_2.
  pose proof H_1 as Hfd.
  apply bfsFdToInum_Done in H_1 as [-> _].
  apply bfsFindOFTE_Done in H_2_1 as [-> (k & -> & F)].
  destruct (findSlot_Some _ _ _ F) as (e & L & I).
  assert (G : forall (m : M unit), (m ;;; ret 0) st = Done r st' ->
            (forall u s', m st = Done u s' -> exists c', s' =
               set_oft (<[k := Some (mkOFTE (inum e) c' (refs e))]> (g_oft st)) st) ->
            r = 0 /\ 0 <= offset /\ exists i k e c',
              bfsFdToInum fd st = Done i st /\ findSlot i (g_oft st) = Some k /\
              g_oft st !! k = Some (Some e) /\
              st' = set_oft (<[k := Some (mkOFTE (inum e) c' (refs e))]> (g_oft st)) st).
  { intros m Hm Hs. inv_bind Hm. apply ret_Done in Hm_2 as [<- <-].
    destruct (Hs _ _ Hm_1) as [c' ->].
    split; [reflexivity|]. split; [lia|]. exists a, k, e, c'. auto. }
  assert (S : forall c u s', setCurs (Z.of_nat k) c st = Done u s' ->
            exists c', s' = set_oft (<[k := Some (mkOFTE (inum e) c' (refs e))]> (g_oft st)) st).
  { intros c u s' Hc. apply setCurs_Done in Hc as (e0 & L0 & ->).
    rewrite Nat2Z.id in *. rewrite L in L0. injection L0 as <-. eauto. }
  destruct (whence =? SEEK_SET); [apply (G _ H_2_2); eauto|].
  destruct (whence =? SEEK_CUR).
  { apply (G _ H_2_2). intros u s' Hm. inv_bind Hm.
    unfold getCurs in Hm_1. rewrite Nat2Z.id, L in Hm_1. injection Hm_1 as <- <-. eauto. }
  destruct (whence =? SEEK_END); [|discriminate].
  apply (G _ H_2_2). intros u s' Hm. inv_bind Hm.
  apply fsSize_Done in Hm_1 as ->. eauto.
Qed.

(** [fsSeek] on a bound descriptor with a non-negative offset and a valid
    [whence] returns 0 and stores [seekTarget]. *)
Lemma fsSeek_run fd offset whence st i k e s :
  0 <= offset ->
  whence = SEEK_SET \/ whence = SEEK_CUR \/ whence = SEEK_END ->
  bfsFdToInum fd st = Done i st -> findSlot i (g_oft st) = Some k ->
  g_oft st !! k = Some (Some e) ->
  fsSize fd st = Done s st ->
  fsSeek fd offset whence st =
  Done 0 (set_oft (<[k := Some (mkOFTE (inum e) (seekTarget whence offset (curs e) s) (refs e))]>
                     (g_oft st)) st).
Proof.
  intros Ho Hw Hfd F L Hs. unfold fsSeek.
  destruct (offset <? 0) eqn:E; [lia|].
  rewrite (bind_eq_Done _ _ _ _ _ Hfd).
  assert (B : bfsFindOFTE i st = Done (Z.of_nat k) st)
    by (unfold bfsFindOFTE; rewrite F; reflexivity).
  rewrite (bind_eq_Done _ _ _ _ _ B).
  assert (C : forall c, setCurs (Z.of_nat k) c st =
                Done tt (set_oft (<[k := Some (mkOFTE (inum e) c (refs e))]> (g_oft st)) st)).
  { intros c. unfold setCurs. rewrite Nat2Z.id, L. reflexivity. }
  assert (G : getCurs (Z.of_nat k) st = Done (curs e) st).
  { unfold getCurs. rewrite Nat2Z.id, L. reflexivity. }
  unfold seekTarget.
  destruct Hw as [-> | [-> | ->]]; simpl.
  - rewrite (bind_eq_Done _ _ _ _ _ (C offset)). reflexivity.
  - unfold bind at 1. unfold bind at 1. rewrite G, C. reflexivity.
  - unfold bind at 1. unfold bind at 1. rewrite Hs, C. reflexivity.
Qed.

(** After [fsSeek] the descriptor's own [fsTell] reads the stored cursor. *)
Lemma tell_after_set fd st i k e c :
  bfsFdToInum fd st = Done i st -> findSlot i (g_oft st) = Some k ->
  g_oft st !! k = Some (Some e) ->
  let st' := set_oft (<[k := Some (mkOFTE (inum e) c (refs e))]> (g_oft st)) st in
  fsTell fd st' = Done c st'.
Proof.
  intros Hfd F L st'. unfold fsTell.
  assert (Hfd' : bfsFdToInum fd st' = Done i st').
  { unfold st'. rewrite bfsFdToInum_set_oft by exact L. rewrite Hfd. reflexivity. }
  assert (F' : findSlot i (g_oft st') = Some k).
  { unfold st'. simpl. erewrite findSlot_insert; eauto. }
  assert (L' : g_oft st' !! k = Some (Some (mkOFTE (inum e) c (refs e)))).
  { unfold st'. simpl. apply list_lookup_insert_eq. eapply lookup_lt_Some; eauto. }
  apply (bfsTell_of_slot _ _ _ _ _ Hfd' F' L').
Qed.

(** C6 (as stated, refuted): a seek with a negative offset does not return a
    Bad-Cursor sentinel to its caller; [FATAL] ends the process, so there is
    no returned value at all. *)
Lemma C6_seek_negative_aborts :
  fsSeek 0 (-1) SEEK_SET opened1 = Abort EBADCURS /\
  ~ (exists r st', fsSeek 0 (-1) SEEK_SET opened1 = Done r st').
Proof.
  assert (H : fsSeek 0 (-1) SEEK_SET opened1 = Abort EBADCURS) by reflexivity.
  split; [exact H|]. intros (r & st' & E). rewrite H in E. discriminate.
Qed.

(** C6 (amended): a seek whose offset argument is negative ends the process
    with EBADCURS, and a seek on a bound descriptor with a non-negative offset
    and a whence other than SEEK_SET, SEEK_CUR, SEEK_END ends it with
    EBADWHENCE; neither case returns to the caller. *)
Theorem C6_seek_errors_are_fatal fd offset whence st i :
  offset < 0 \/
  (whence <> SEEK_SET /\ whence <> SEEK_CUR /\ whence <> SEEK_END /\
   bfsFdToInum fd st = Done i st) ->
  fsSeek fd offset whence st =
  Abort (if offset <? 0 then EBADCURS else EBADWHENCE).
Proof.
  intros H. unfold fsSeek.
  destruct (offset <? 0) eqn:E; [reflexivity|].
  destruct H as [H | (H1 & H2 & H3 & Hfd)]; [lia|].
  rewrite (bind_eq_Done _ _ _ _ _ Hfd).
  destruct (bfsFdToInum_Done _ _ _ _ Hfd) as (_ & _ & e & L & I).
  destruct (findSlot_bound _ _ _ L) as [m F]. rewrite I in F.
  assert (B : bfsFindOFTE i st = Done (Z.of_nat m) st)
    by (unfold bfsFindOFTE; rewrite F; reflexivity).
  rewrite (bind_eq_Done _ _ _ _ _ B).
  destruct (Z.eqb_spec whence SEEK_SET); [contradiction|].
  destruct (Z.eqb_spec whence SEEK_CUR); [contradiction|].
  destruct (Z.eqb_spec whence SEEK_END); [contradiction|].
  reflexivity.
Qed.

Lemma C6_seek_errors_are_fatal_witness :
  fsSeek 0 (-1) SEEK_CUR opened1 = Abort EBADCURS /\
  fsSeek 0 4 7 opened1 = Abort EBADWHENCE.
Proof.
  split.
  - apply (C6_seek_errors_are_fatal 0 (-1) SEEK_CUR opened1 1). left. lia.
  - apply (C6_seek_errors_are_fatal 0 4 7 opened1 1). right.
    repeat split; try discriminate.
Defined.

(** C7 (as stated, refuted): with the cursor at 5, a seek by -1 relative to
    the current position would land on 4, yet it is rejected. *)
Lemma C7_negative_offset_rejected :
  fsTell 0 (after (fsSeek 0 5 SEEK_SET) opened1)
  = Done 5 (after (fsSeek 0 5 SEEK_SET) opened1) /\
  0 <= 5 + -1 /\
  fsSeek 0 (-1) SEEK_CUR (after (fsSeek 0 5 SEEK_SET) opened1) = Abort EBADCURS.
Proof. split; [reflexivity|]. split; [lia | reflexivity]. Qed.

(** C7 (amended): for an open descriptor with cursor [c] and file size [s]
    and every non-negative offset, SEEK_SET sets the cursor to [offset],
    SEEK_CUR to [c + offset] and SEEK_END to [s + offset] (as long as that
    position is an [i32]), and the call returns 0. *)
Theorem C7_seek_semantics fd offset whence st c s :
  0 <= offset ->
  whence = SEEK_SET \/ whence = SEEK_CUR \/ whence = SEEK_END ->
  fsTell fd st = Done c st ->
  fsSize fd st = Done s st ->
  - 2^31 <= seekPosition whence offset c s <= INT_MAX ->
  exists st',
    fsSeek fd offset whence st = Done 0 st' /\
    fsTell fd st' = Done (seekPosition whence offset c s) st'.
Proof.
  intros Ho Hw Ht Hs Hr.
  apply bfsTell_Done in Ht as (_ & i & k & e & Hfd & F & L & C & I).
  assert (E : seekTarget whence offset (curs e) s = seekPosition whence offset c s).
  { unfold seekTarget, seekPosition in *. rewrite C.
    destruct Hw as [-> | [-> | ->]]; simpl in *;
      [reflexivity | apply wrap32_id; exact Hr | apply wrap32_id; exact Hr]. }
  eexists. split.
  - apply (fsSeek_run fd offset whence st i k e s); assumption.
  - rewrite E. apply (tell_after_set fd st i k e); assumption.
Qed.

Lemma C7_seek_semantics_witness :
  exists st',
    fsSeek 0 3 SEEK_CUR (after (fsSeek 0 5 SEEK_SET) opened1) = Done 0 st' /\
    fsTell 0 st' = Done (seekPosition SEEK_CUR 3 5 0) st'.
Proof.
  apply (C7_seek_semantics 0 3 SEEK_CUR (after (fsSeek 0 5 SEEK_SET) opened1) 5 0).
  - lia.
  - right. left. reflexivity.
  - reflexivity.
  - reflexivity.
  - split; vm_compute; discriminate.
Defined.

(** ** fsOpen and the sharing of cursors *)

Lemma freeSlot_Some (o : list (option OFTE)) n :
  freeSlot o = Some n -> o !! n = Some None.
Proof.
  revert n. induction o as [|[e|] o IH]; simpl; intros n H; try discriminate.
  - destruct (freeSlot o) as [m|]; [|discriminate].
    injection H as <-. apply (IH m eq_refl).
  - injection H as <-. reflexivity.
Qed.

(** A successful [fsOpen] binds the inode of the name to a slot that was
    free, with cursor 0 and one reference. *)
Lemma fsOpen_Done fname st fd st' :
  fsOpen fname st = Done (Val fd) st' ->
  exists i n, dir st !! fname = Some i /\ fd = Z.of_nat n /\
    g_oft st !! n = Some None /\
    st' = set_oft (<[n := Some (mkOFTE i 0 1)]> (g_oft st)) st.
Proof.
  unfold fsOpen. intros H. inv_bind H.
  unfold bfsLookupFile in H_1.
  destruct (dir st !! fname) as [i|] eqn:D; injection H_1 as <- <-.
  - unfold bfsInumToFd in H_2.
    destruct (freeSlot (g_oft st)) as [n|] eqn:F; [|discriminate].
    injection H_2 as <- <-. exists i, n.
    auto using freeSlot_Some.
  - discriminate.
Qed.

Lemma bfsFdToInum_of_slot st n e :
  g_oft st !! n = Some (Some e) -> bfsFdToInum (Z.of_nat n) st = Done (inum e) st.
Proof.
  intros L. unfold bfsFdToInum.
  destruct (Z.ltb_spec (Z.of_nat n) 0) as [E|E]; [lia|].
  rewrite Nat2Z.id, L. reflexivity.
Qed.






(** ** fsRead *)

Lemma bfsFbnToDbn_Done i fbn st r st' :
  bfsFbnToDbn i fbn st = Done r st' ->
  st' = st /\ exists ino, inodes st !! i = Some ino /\
    match r with
    | Val d => chain ino !! fbn = Some d
    | Err e => e = ENODBN /\ chain ino !! fbn = None
    end.
Proof.
  unfold bfsFbnToDbn. destruct (inodes st !! i) as [ino|]; [|discriminate].
  destruct (chain ino !! fbn) as [d|] eqn:C; intros H; injection H as <- <-; eauto.
Qed.

Lemma bfsRead_Done i fbn st b st' :
  bfsRead i fbn st = Done b st' ->
  st' = st /\ exists ino d, inodes st !! i = Some ino /\
    chain ino !! fbn = Some d /\ disk st !! d = Some b.
Proof.
  unfold bfsRead. intros H. inv_bind H.
  apply bfsFbnToDbn_Done in H_1 as (-> & ino & Hi & Hr).
  destruct a as [d|e]; [|discriminate].
  destruct (disk st !! d) as [b'|] eqn:D; [|discriminate].
  injection H_2 as <- <-. eauto 6.
Qed.

(** The block loop of [fsRead] changes nothing in the file system. *)
Lemma fsRead_loop_pure fuel fd i numb cursorIdx fbn tempBuf st ex st' :
  fsRead_loop fuel fd i numb cursorIdx fbn tempBuf st = Done ex st' -> st' = st.
Proof.
  revert numb cursorIdx fbn tempBuf st.
  induction fuel as [|fuel IH]; intros numb cursorIdx fbn tempBuf st; simpl.
  - destruct (numb <=? 0); [|discriminate].
    intros H. apply ret_Done in H as [_ ->]. reflexivity.
  - destruct (numb <=? 0).
    { intros H. apply ret_Done in H as [_ ->]. reflexivity. }
    intros H. inv_bind H. apply bfsRead_Done in H_1 as [-> _].
    destruct ((if 0 <? cursorIdx then 0 else cursorIdx) <? 0); [discriminate|].
    inv_bind H_2. apply fsSize_Done in H_2_1 as ->.
    destruct (a0 <? wrap32 (fbn * BYTESPERBLOCK)).
    + apply ret_Done in H_2_2 as [_ ->]. reflexivity.
    + apply IH in H_2_2. exact H_2_2.
Qed.

(** C10: whenever [fsRead] returns the EBADREAD sentinel (its end-of-file
    branch is the only place that does), the caller's buffer is what it was
    before the call and the file system state, the descriptor's cursor
    included, is unchanged. *)
Theorem C10_read_error_atomic fd numb buf st buf' st' :
  fsRead fd numb buf st = Done (Err EBADREAD, buf') st' ->
  buf' = buf /\ st' = st /\ fsTell fd st' = fsTell fd st.
Proof.
  unfold fsRead. destruct (numb <=? 0); [discriminate|].
  intros H. inv_bind H. apply bfsFdToInum_Done in H_1 as [-> _].
  inv_bind H_2. apply bfsTell_Done in H_2_1 as [-> _].
  inv_bind H_2_2. apply fsRead_loop_pure in H_2_2_1 as ->.
  destruct a1 as [r | fbn tempBuf].
  - apply ret_Done in H_2_2_2 as [E <-]. injection E as -> <-. auto.
  - inv_bind H_2_2_2.
    destruct ((a1 <? 0) || (Z.of_nat (length buf) <? a1)); [discriminate|].
    inv_bind H_2_2_2_2. apply ret_Done in H_2_2_2_2_2 as [E _]. discriminate.
Qed.

Lemma C10_read_error_atomic_witness :
  fsRead 0 1 [7] (after (fsSeek 0 1536 SEEK_SET) holeWritten)
  = Done (Err EBADREAD, [7]) (after (fsSeek 0 1536 SEEK_SET) holeWritten) /\
  ([7] = [7] /\
   after (fsSeek 0 1536 SEEK_SET) holeWritten = after (fsSeek 0 1536 SEEK_SET) holeWritten /\
   fsTell 0 (after (fsSeek 0 1536 SEEK_SET) holeWritten)
   = fsTell 0 (after (fsSeek 0 1536 SEEK_SET) holeWritten)).
Proof.
  assert (H : fsRead 0 1 [7] (after (fsSeek 0 1536 SEEK_SET) holeWritten)
              = Done (Err EBADREAD, [7]) (after (fsSeek 0 1536 SEEK_SET) holeWritten))
    by (vm_compute; reflexivity).
  split; [exact H|].
  exact (C10_read_error_atomic 0 1 [7] (after (fsSeek 0 1536 SEEK_SET) holeWritten) [7]
           (after (fsSeek 0 1536 SEEK_SET) holeWritten) H).
Defined.

(** ** fsWrite *)




Lemma chainOf_inode i st ino : inodes st !! i = Some ino -> chainOf i st = chain ino.
Proof. unfold chainOf. intros ->. reflexivity. Qed.

Lemma bioWrite_Done dbn b s r s' :
  bioWrite dbn b s = Done r s' ->
  exists d, dbn = Val d /\ s' = set_disk (<[d := b]> (disk s)) s.
Proof.
  unfold bioWrite. destruct dbn as [d|e]; [|discriminate].
  intros H. injection H as <- <-. eauto.
Qed.

(** The "alloc if not mapped" step either finds the block mapped and changes
    nothing, or takes the head of the free list, maps it, grows the size by a
    block and stores a zeroed block there. *)
Lemma mapOrAlloc_Done i fbn s r s' :
  mapOrAlloc i fbn s = Done r s' ->
  (exists d, chainOf i s !! fbn = Some d /\ r = Val d /\ s' = s) \/
  (chainOf i s !! fbn = None /\
   exists d fl sz, freelist s = d :: fl /\ r = Val d /\
     freelist s' = fl /\ chainOf i s' = <[fbn := d]> (chainOf i s) /\
     disk s' = <[d := zeroBlock]> (disk s) /\
     sizeOf i s = Some sz /\ sizeOf i s' = Some (sz + BYTESPERBLOCK) /\
     g_oft s' = g_oft s).
Proof.
  unfold mapOrAlloc. intros H. inv_bind_as H r0 s0.
  apply bfsFbnToDbn_Done in H_1 as (-> & ino & Hi & Hr).
  destruct r0 as [d|e].
  - apply ret_Done in H_2 as [<- <-]. left. exists d.
    rewrite (chainOf_inode _ _ _ Hi). auto.
  - destruct Hr as [-> Hc]. right.
    rewrite (chainOf_inode _ _ _ Hi). split; [exact Hc|].
    inv_bind_as H_2 r1 s1. unfold bfsAllocBlock in H_2_1. rewrite Hi in H_2_1.
    destruct (freelist s) as [|d fl] eqn:Fl.
    + injection H_2_1 as <- <-. inv_bind_as H_2_2 r2 s2.
      apply bfsFbnToDbn_Done in H_2_2_1 as (-> & ino' & Hi' & Hr').
      rewrite Hi in Hi'. injection Hi' as <-.
      destruct r2 as [d'|e']; [congruence|].
      inv_bind_as H_2_2_2 r3 s3. discriminate.
    + injection H_2_1 as <- <-. inv_bind_as H_2_2 r2 s2.
      apply bfsFbnToDbn_Done in H_2_2_1 as (-> & ino' & Hi' & Hr').
      simpl in Hi'. rewrite lookup_insert_eq in Hi'. injection Hi' as <-.
      simpl in Hr'. destruct r2 as [d'|e'].
      * rewrite lookup_insert_eq in Hr'. injection Hr' as <-.
        inv_bind_as H_2_2_2 r3 s3. apply bioWrite_Done in H_2_2_2_1 as (d0 & E & ->).
        injection E as <-. apply ret_Done in H_2_2_2_2 as [<- <-].
        exists d, fl, (isize ino). simpl.
        unfold chainOf, sizeOf. simpl. rewrite lookup_insert_eq, Hi. simpl.
        repeat split; reflexivity.
      * destruct Hr' as [_ Hr']. rewrite lookup_insert_eq in Hr'. discriminate.
Qed.

Lemma blockCount_range cursorIdx numb :
  0 < numb -> 0 <= cursorIdx < BYTESPERBLOCK ->
  0 < blockCount cursorIdx numb <= numb /\
  blockCount cursorIdx numb <= BYTESPERBLOCK - cursorIdx /\
  (blockCount cursorIdx numb = numb \/
   blockCount cursorIdx numb = BYTESPERBLOCK - cursorIdx).
Proof.
  unfold blockCount, MIN, BYTESPERBLOCK. intros Hn Hc.
  destruct (0 <? cursorIdx) eqn:E1.
  - destruct (512 - cursorIdx <? numb) eqn:E2; lia.
  - destruct (512 <? numb) eqn:E2; lia.
Qed.

(** One turn of the [while] loop of [fsWrite], seen from a run that
    returned. *)
Lemma fsWrite_loop_S fuel fd i tb numb cidx bidx fbn dbn s s' :
  0 < numb ->
  fsWrite_loop (S fuel) fd i tb numb cidx bidx fbn dbn s = Done tt s' ->
  exists wb d o dbn' s3,
    bfsRead i fbn s = Done wb s /\ 0 <= cidx /\ dbn = Val d /\
    mapOrAlloc i (wrap32 (fbn + 1))
      (set_oft o (set_disk (<[d := memcpy wb cidx tb bidx (blockCount cidx numb)]> (disk s)) s))
    = Done dbn' s3 /\
    fsWrite_loop fuel fd i tb (numb - blockCount cidx numb) 0
      (bidx + blockCount cidx numb) (wrap32 (fbn + 1)) dbn' s3 = Done tt s'.
Proof.
  intros Hn. simpl.
  destruct (Z.leb_spec numb 0) as [?|_]; [lia|].
  intros H. inv_bind_as H wb s0. pose proof H_1 as Hrd.
  apply bfsRead_Done in H_1 as [-> _].
  destruct (Z.ltb_spec cidx 0) as [?|Hc]; [discriminate|].
  inv_bind_as H_2 r1 s1. apply bioWrite_Done in H_2_1 as (d & -> & ->).
  inv_bind_as H_2_2 r2 s2.
  apply fsSeek_Done in H_2_2_1 as (_ & _ & i0 & k & e & c' & _ & _ & _ & ->).
  inv_bind_as H_2_2_2 dbn' s3.
  exists wb, d. eexists. exists dbn', s3.
  repeat split; try assumption. exact H_2_2_2_1.
Qed.

(** An invariant rule for the [while] loop of [fsWrite]: a predicate on the
    loop variables and the state that every turn preserves holds, with
    [numb <= 0], in the state the loop returns in. *)
Lemma fsWrite_loop_inv fd i tb (P : Z -> Z -> Z -> Z -> rv -> BFS -> Prop) :
  (forall numb cidx bidx fbn dbn s wb d o dbn' s3,
     0 < numb -> P numb cidx bidx fbn dbn s ->
     bfsRead i fbn s = Done wb s -> 0 <= cidx -> dbn = Val d ->
     mapOrAlloc i (wrap32 (fbn + 1))
       (set_oft o (set_disk (<[d := memcpy wb cidx tb bidx (blockCount cidx numb)]> (disk s)) s))
     = Done dbn' s3 ->
     P (numb - blockCount cidx numb) 0 (bidx + blockCount cidx numb)
       (wrap32 (fbn + 1)) dbn' s3) ->
  forall fuel numb cidx bidx fbn dbn s s',
    P numb cidx bidx fbn dbn s ->
    fsWrite_loop fuel fd i tb numb cidx bidx fbn dbn s = Done tt s' ->
    exists numb' cidx' bidx' fbn' dbn',
      numb' <= 0 /\ P numb' cidx' bidx' fbn' dbn' s'.
Proof.
  intros Step. induction fuel as [|fuel IH]; intros numb cidx bidx fbn dbn s s' HP H.
  - simpl in H. destruct (Z.leb_spec numb 0) as [Hn|Hn]; [|discriminate].
    apply ret_Done in H as [_ <-]. eauto 8.
  - destruct (Z.leb_spec numb 0) as [Hn|Hn].
    + simpl in H. destruct (Z.leb_spec numb 0); [|lia].
      apply ret_Done in H as [_ <-]. eauto 8.
    + apply fsWrite_loop_S in H as (wb & d & o & dbn' & s3 & Hrd & Hc & -> & Hm & Hl);
        [|exact Hn].
      eapply IH; [|exact Hl].
      eapply Step; eauto.
Qed.

Lemma writePos_step c n numb cidx bidx fbn :
  0 <= c -> c + n <= INT_MAX -> 0 < numb ->
  writePos c n numb cidx bidx fbn ->
  wrap32 (fbn + 1) = fbn + 1 /\ c / BYTESPERBLOCK <= fbn /\
  fbn * BYTESPERBLOCK < c + n /\
  writePos c n (numb - blockCount cidx numb) 0 (bidx + blockCount cidx numb) (fbn + 1).
Proof.
  intros Hc Hn Hp (Hci & Hb & Hnb & Hsum & Hpos).
  specialize (Hpos Hp).
  destruct (blockCount_range cidx numb Hp Hci) as (Hr1 & Hr2 & Hr3).
  unfold BYTESPERBLOCK, INT_MAX in *.
  assert (0 <= fbn) by lia.
  split; [apply wrap32_id; unfold INT_MAX; lia|].
  split; [pose proof (Z.div_lt_upper_bound c 512 (fbn + 1)); lia|].
  split; [lia|].
  unfold writePos, BYTESPERBLOCK. repeat split; try lia.
Qed.

Lemma chainOf_set_oft_disk i o d s :
  chainOf i (set_oft o (set_disk d s)) = chainOf i s.
Proof. reflexivity. Qed.

(** The cursor split of [fsRead] and [fsWrite] for a non-negative cursor. *)
Lemma cursor_split c :
  0 <= c ->
  Z.quot c BYTESPERBLOCK = c / BYTESPERBLOCK /\
  Z.rem c BYTESPERBLOCK = c mod BYTESPERBLOCK /\
  0 <= c mod BYTESPERBLOCK < BYTESPERBLOCK /\
  c / BYTESPERBLOCK * BYTESPERBLOCK + c mod BYTESPERBLOCK = c.
Proof.
  intros Hc. unfold BYTESPERBLOCK.
  rewrite Z.quot_div_nonneg, Z.rem_mod_nonneg by lia.
  pose proof (Z.mod_pos_bound c 512). pose proof (Z.div_mod c 512). lia.
Qed.

(** The parts of a returning [fsWrite]: the descriptor's inode, the cursor,
    the first "alloc if not mapped" step and the loop. *)
Lemma fsWrite_Done fd numb buf st r st' :
  fsWrite fd numb buf st = Done r st' ->
  0 <= numb <= Z.of_nat (length buf) /\
  exists i c dbn s1,
    bfsFdToInum fd st = Done i st /\ bfsTell fd st = Done c st /\
    mapOrAlloc i (Z.quot c BYTESPERBLOCK) st = Done dbn s1 /\
    fsWrite_loop (Z.to_nat numb) fd i (take (Z.to_nat numb) buf) numb
      (Z.rem c BYTESPERBLOCK) 0 (Z.quot c BYTESPERBLOCK) dbn s1 = Done tt st'.
Proof.
  unfold fsWrite.
  destruct (Z.ltb_spec numb 0) as [?|Hn]; [discriminate|].
  destruct (Z.ltb_spec (Z.of_nat (length buf)) numb) as [?|Hl]; [discriminate|].
  simpl. intros H. inv_bind_as H i s0. pose proof H_1 as Hfd.
  apply bfsFdToInum_Done in H_1 as [-> _].
  inv_bind_as H_2 c s1. pose proof H_2_1 as Ht.
  apply bfsTell_Done in H_2_1 as [-> _].
  inv_bind_as H_2_2 dbn s2. inv_bind_as H_2_2_2 u s3.
  apply ret_Done in H_2_2_2_2 as [_ <-]. destruct u.
  split; [lia|]. exists i, c, dbn, s2. auto.
Qed.

(** C4 (amended): a returning write of [numb] bytes at cursor [c] maps new
    file blocks only at the block under the cursor and, when [numb > 0], at
    the blocks after it up to one past the block of the last byte written:
    every newly mapped file block number [f] is [c / BYTESPERBLOCK] or has
    [(f - 1) * BYTESPERBLOCK < c + numb].  A write of 0 bytes can map only the
    block under the cursor. *)
Theorem C4_allocation_range fd numb buf st r st' i c :
  bfsFdToInum fd st = Done i st ->
  fsTell fd st = Done c st ->
  0 <= c -> c + numb <= INT_MAX ->
  fsWrite fd numb buf st = Done r st' ->
  forall f, chainOf i st !! f = None -> chainOf i st' !! f <> None ->
    f = c / BYTESPERBLOCK \/
    (0 < numb /\ c / BYTESPERBLOCK < f /\ (f - 1) * BYTESPERBLOCK < c + numb).
Proof.
  intros Hfd Ht Hc Hmax Hw.
  apply fsWrite_Done in Hw as (Hnb & i' & c' & dbn & s1 & Hfd' & Ht' & Hm & Hl).
  unfold fsTell in Ht. rewrite Hfd in Hfd'. rewrite Ht in Ht'.
  injection Hfd' as <-. injection Ht' as <-.
  destruct (cursor_split c Hc) as (Eq & Er & Hr & Hdm).
  rewrite Eq, Er in *.
  set (New := fun s => forall f, chainOf i st !! f = None -> chainOf i s !! f <> None ->
    f = c / BYTESPERBLOCK \/
    (0 < numb /\ c / BYTESPERBLOCK < f /\ (f - 1) * BYTESPERBLOCK < c + numb)).
  set (P := fun nb cidx bidx fbn (dbn : rv) s => writePos c numb nb cidx bidx fbn /\ New s).
  assert (Hend : exists nb' cidx' bidx' fbn' dbn', nb' <= 0 /\ P nb' cidx' bidx' fbn' dbn' st').
  { eapply (fsWrite_loop_inv fd i (take (Z.to_nat numb) buf) P); [ | | exact Hl].
    - intros nb cidx bidx fbn dbn0 s wb d o dbn' s3 Hp [Hpos Hnew] _ _ _ Hm3.
      destruct (writePos_step _ _ _ _ _ _ Hc Hmax Hp Hpos) as (Hw32 & Hlo & Hhi & Hpos').
      rewrite Hw32 in *. split; [exact Hpos'|].
      assert (Hn0 : 0 < numb) by (destruct Hpos as (_ & ? & _ & ? & _); lia).
      apply mapOrAlloc_Done in Hm3 as [(d' & _ & _ & ->) | (_ & d' & fl & sz & _ & _ & _ & Hch & _)].
      + intros f Hf1 Hf2. rewrite chainOf_set_oft_disk in Hf2. auto.
      + intros f Hf1 Hf2. rewrite Hch, chainOf_set_oft_disk in Hf2.
        destruct (decide (f = fbn + 1)) as [->|Hne].
        * right. replace (fbn + 1 - 1) with fbn by lia. lia.
        * rewrite lookup_insert_ne in Hf2 by auto. auto.
    - split.
      + unfold writePos. repeat split; lia.
      + apply mapOrAlloc_Done in Hm as [(d' & _ & _ & ->) | (_ & d' & fl & sz & _ & _ & _ & Hch & _)].
        * intros f Hf1 Hf2. congruence.
        * intros f Hf1 Hf2. rewrite Hch in Hf2.
          destruct (decide (f = c / BYTESPERBLOCK)) as [->|Hne]; [auto|].
          rewrite lookup_insert_ne in Hf2 by auto. congruence. }
  destruct Hend as (nb' & cidx' & bidx' & fbn' & dbn' & _ & _ & Hnew).
  exact Hnew.
Qed.

Lemma C4_allocation_range_witness :
  chainOf 1 opened1 !! 1 = None /\
  chainOf 1 (after (fsWrite 0 600 (replicate 600 88)) opened1) !! 1 <> None /\
  (1 = 0 / BYTESPERBLOCK \/
   (0 < 600 /\ 0 / BYTESPERBLOCK < 1 /\ (1 - 1) * BYTESPERBLOCK < 0 + 600)).
Proof.
  assert (H1 : chainOf 1 opened1 !! 1 = None) by reflexivity.
  assert (H2 : chainOf 1 (after (fsWrite 0 600 (replicate 600 88)) opened1) !! 1 <> None)
    by (vm_compute; discriminate).
  split; [exact H1|]. split; [exact H2|].
  apply (C4_allocation_range 0 600 (replicate 600 88) opened1 0
           (after (fsWrite 0 600 (replicate 600 88)) opened1) 1 0).
  - reflexivity.
  - reflexivity.
  - lia.
  - unfold INT_MAX. lia.
  - vm_compute. reflexivity.
  - exact H1.
  - exact H2.
Defined.

(** C4 (as stated, refuted): a write of 512 bytes at cursor 0 of the empty
    file covers file block 0 only, its last byte being byte 511, yet file
    block 1 is mapped afterwards; and a write of 0 bytes maps file block 0. *)
Lemma C4_write_allocates_past_range :
  chainOf 1 opened1 = ∅ /\
  fsWrite 0 512 (replicate 512 88) opened1
  = Done 0 (after (fsWrite 0 512 (replicate 512 88)) opened1) /\
  (0 + 512 - 1) / BYTESPERBLOCK = 0 /\
  chainOf 1 (after (fsWrite 0 512 (replicate 512 88)) opened1) !! 1 = Some 11 /\
  fsWrite 0 0 [] opened1 = Done 0 (after (fsWrite 0 0 []) opened1) /\
  chainOf 1 (after (fsWrite 0 0 []) opened1) !! 0 = Some 10.
Proof. vm_compute. repeat split; reflexivity. Qed.

(** ** Zero-fill of newly mapped blocks *)

Lemma memcpy_length dst di src si n :
  0 <= di -> 0 <= si -> 0 <= n ->
  di + n <= Z.of_nat (length dst) -> si + n <= Z.of_nat (length src) ->
  length (memcpy dst di src si n) = length dst.
Proof.
  intros. unfold memcpy.
  rewrite !length_app, !length_take, !length_drop. lia.
Qed.

Lemma memcpy_lookup_before dst di src si n j :
  0 <= j < di -> di <= Z.of_nat (length dst) ->
  memcpy dst di src si n !! Z.to_nat j = dst !! Z.to_nat j.
Proof.
  intros Hj Hd. unfold memcpy.
  rewrite lookup_app_l by (rewrite length_take; lia).
  apply lookup_take_lt. lia.
Qed.

Lemma memcpy_lookup_after dst di src si n j :
  0 <= di -> 0 <= si -> 0 <= n -> di + n <= j ->
  di + n <= Z.of_nat (length dst) -> si + n <= Z.of_nat (length src) ->
  memcpy dst di src si n !! Z.to_nat j = dst !! Z.to_nat j.
Proof.
  intros Hdi Hsi Hn Hj Hd Hs. unfold memcpy.
  rewrite lookup_app_r by (rewrite length_take; lia).
  rewrite lookup_app_r by (rewrite !length_take, length_drop; lia).
  rewrite lookup_drop, !length_take, length_drop. f_equal. lia.
Qed.

Lemma zeroBlock_length : Z.of_nat (length zeroBlock) = BYTESPERBLOCK.
Proof. reflexivity. Qed.


Lemma bfsRead_chainOf i fbn s wb s' :
  bfsRead i fbn s = Done wb s' ->
  exists d, chainOf i s !! fbn = Some d /\ disk s !! d = Some wb.
Proof.
  intros H. apply bfsRead_Done in H as (_ & ino & d & Hi & Hc & Hd).
  exists d. rewrite (chainOf_inode _ _ _ Hi). auto.
Qed.






(** ** The fuel of the two loops *)

Lemma bind_ext {A B} (m : M A) (k1 k2 : A -> M B) st :
  (forall a s, k1 a s = k2 a s) -> bind m k1 st = bind m k2 st.
Proof. intros H. unfold bind. destruct (m st); auto. Qed.

(** The [while] loop of [fsWrite] gives the same outcome for every amount of
    fuel from [numb] upwards: [fsWrite] never runs out of it. *)
Lemma fsWrite_loop_fuel fd i tb fuel1 : forall fuel2 numb cidx bidx fbn dbn s,
  (Z.to_nat numb <= fuel1)%nat -> (Z.to_nat numb <= fuel2)%nat ->
  0 <= cidx < BYTESPERBLOCK ->
  fsWrite_loop fuel1 fd i tb numb cidx bidx fbn dbn s
  = fsWrite_loop fuel2 fd i tb numb cidx bidx fbn dbn s.
Proof.
  induction fuel1 as [|fuel1 IH]; intros [|fuel2] numb cidx bidx fbn dbn s H1 H2 Hc;
    simpl; destruct (Z.leb_spec numb 0) as [Hn|Hn]; try reflexivity; try lia.
  destruct (blockCount_range cidx numb Hn Hc) as (Hr & _).
  apply bind_ext. intros wb s0.
  destruct (cidx <? 0); [reflexivity|].
  apply bind_ext. intros r1 s1. apply bind_ext. intros r2 s2.
  apply bind_ext. intros dbn' s3.
  apply IH; unfold BYTESPERBLOCK; lia.
Qed.

(** The same for the [while] loop of [fsRead]. *)
Lemma fsRead_loop_fuel fd i fuel1 : forall fuel2 numb cidx fbn tb s,
  (Z.to_nat numb <= fuel1)%nat -> (Z.to_nat numb <= fuel2)%nat ->
  0 <= cidx < BYTESPERBLOCK ->
  fsRead_loop fuel1 fd i numb cidx fbn tb s
  = fsRead_loop fuel2 fd i numb cidx fbn tb s.
Proof.
  induction fuel1 as [|fuel1 IH]; intros [|fuel2] numb cidx fbn tb s H1 H2 Hc;
    simpl; destruct (Z.leb_spec numb 0) as [Hn|Hn]; try reflexivity; try lia.
  destruct (blockCount_range cidx numb Hn Hc) as (Hr & _).
  apply bind_ext. intros rb s0.
  destruct (Z.ltb_spec 0 cidx) as [Hp|Hp]; simpl.
  - apply bind_ext. intros sz s1.
    destruct (sz <? wrap32 (fbn * BYTESPERBLOCK)); [reflexivity|].
    apply IH; unfold BYTESPERBLOCK; lia.
  - destruct (Z.ltb_spec cidx 0); [lia|].
    apply bind_ext. intros sz s1.
    destruct (sz <? wrap32 (fbn * BYTESPERBLOCK)); [reflexivity|].
    apply IH; unfold BYTESPERBLOCK; lia.
Qed.

(** ** The size under fsWrite *)

(** No returning write lowers the size of the file. *)
Lemma fsWrite_size_mono fd numb buf st r st' i sz :
  bfsFdToInum fd st = Done i st -> sizeOf i st = Some sz ->
  fsWrite fd numb buf st = Done r st' ->
  exists sz', sizeOf i st' = Some sz' /\ sz <= sz'.
Proof.
  intros Hfd Hsz Hw.
  apply fsWrite_Done in Hw as (Hnb & i' & c' & dbn & s1 & Hfd' & Ht' & Hm & Hl).
  rewrite Hfd in Hfd'. injection Hfd' as <-.
  set (P := fun (nb cidx bidx fbn : Z) (dbn : rv) s =>
    exists sz', sizeOf i s = Some sz' /\ sz <= sz').
  assert (Hstep : forall fbn s dbn s', mapOrAlloc i fbn s = Done dbn s' ->
            (exists sz', sizeOf i s = Some sz' /\ sz <= sz') ->
            exists sz', sizeOf i s' = Some sz' /\ sz <= sz').
  { intros fbn s dbn0 s' Hm0 (sz0 & Hs0 & Hle).
    apply mapOrAlloc_Done in Hm0
      as [(d' & _ & _ & ->) | (_ & d' & fl & sz1 & _ & _ & _ & _ & _ & Hs1 & Hs1' & _)].
    - eauto.
    - rewrite Hs0 in Hs1. injection Hs1 as <-.
      exists (sz0 + BYTESPERBLOCK). split; [exact Hs1'|]. unfold BYTESPERBLOCK. lia. }
  assert (Hend : exists nb' cidx' bidx' fbn' dbn', nb' <= 0 /\ P nb' cidx' bidx' fbn' dbn' st').
  { eapply (fsWrite_loop_inv fd i _ P); [ | | exact Hl].
    - intros nb cidx bidx fbn dbn0 s wb d o dbn' s3 _ HP _ _ _ Hm3.
      eapply Hstep; [exact Hm3|]. exact HP.
    - eapply Hstep; [exact Hm|]. eauto using Z.le_refl. }
  destruct Hend as (nb' & cidx' & bidx' & fbn' & dbn' & _ & HP). exact HP.
Qed.

(** C1: the round trip fails.  After 300 bytes ['X'] are written at offset 0
    of the empty file and the cursor is moved back, a read of 300 bytes
    returns 88 and fills only the first 88 bytes of the caller's buffer; and
    after the two bytes "AB" are written at offset 10 and the cursor is moved
    back to 10, a read of 2 bytes returns 2 with two zero bytes. *)
Theorem C1_round_trip_fails :
  fsWrite 0 300 (replicate 300 88) opened1
  = Done 0 (after (fsWrite 0 300 (replicate 300 88)) opened1) /\
  fsSeek 0 0 SEEK_SET (after (fsWrite 0 300 (replicate 300 88)) opened1)
  = Done 0 written300 /\
  fsRead 0 300 (replicate 300 7) written300
  = Done (Val 88, replicate 88 88 ++ replicate 212 7)
         (after (fsRead 0 300 (replicate 300 7)) written300) /\
  fsWrite 0 2 [65; 66] (after (fsSeek 0 10 SEEK_SET) opened1)
  = Done 0 (after (fsWrite 0 2 [65; 66]) (after (fsSeek 0 10 SEEK_SET) opened1)) /\
  fsRead 0 2 [7; 7]
    (after (fsSeek 0 10 SEEK_SET)
       (after (fsWrite 0 2 [65; 66]) (after (fsSeek 0 10 SEEK_SET) opened1)))
  = Done (Val 2, [0; 0])
      (after (fsRead 0 2 [7; 7])
         (after (fsSeek 0 10 SEEK_SET)
            (after (fsWrite 0 2 [65; 66]) (after (fsSeek 0 10 SEEK_SET) opened1)))).
Proof. vm_compute. repeat split; reflexivity. Qed.

(** C2: a read at the end of the file does not return a byte count.  With
    the file of [holeWritten] (size 1024) and the cursor at 1536, a read of one
    byte returns the EBADREAD sentinel; with the file of [written300] (size
    1024) and the cursor at 512, a read of 1024 bytes ends the process instead
    of returning the 512 bytes that remain. *)
Theorem C2_read_at_eof_returns_no_count :
  fsSize 0 holeWritten = Done 1024 holeWritten /\
  fsRead 0 1 [7] (after (fsSeek 0 1536 SEEK_SET) holeWritten)
  = Done (Err EBADREAD, [7]) (after (fsSeek 0 1536 SEEK_SET) holeWritten) /\
  fsSize 0 written300 = Done 1024 written300 /\
  fsRead 0 1024 (replicate 1024 7) (after (fsSeek 0 512 SEEK_SET) written300)
  = Abort EREADFAULT.
Proof. vm_compute. repeat split; reflexivity. Qed.


(** * Further properties of fs.c *)

(** ** fsOpen, fsSeek and fsClose *)

(** X1: opening a name that is not in the directory returns the EFNF
    sentinel and changes nothing: no slot of the open file table is taken. *)
Theorem X1_open_unknown_name fname st :
  dir st !! fname = None -> fsOpen fname st = Done (Err EFNF) st.
Proof.
  intros H. unfold fsOpen, bfsLookupFile, bind. rewrite H. reflexivity.
Qed.

Lemma X1_open_unknown_name_witness :
  dir opened1 !! "c.txt"%string = None /\
  fsOpen "c.txt" opened1 = Done (Err EFNF) opened1.
Proof.
  assert (H : dir opened1 !! "c.txt"%string = None) by reflexivity.
  split; [exact H|]. exact (X1_open_unknown_name "c.txt" opened1 H).
Defined.

(** X2: a returning [fsSeek] touches nothing but cursors: inode table, free
    list, device and directory are as before, the open file table keeps its
    length, and every descriptor is bound to the inode it was bound to. *)
Theorem X2_seek_changes_only_cursors fd offset whence st r st' :
  fsSeek fd offset whence st = Done r st' ->
  inodes st' = inodes st /\ freelist st' = freelist st /\
  disk st' = disk st /\ dir st' = dir st /\
  length (g_oft st') = length (g_oft st) /\
  forall fd2 i2, bfsFdToInum fd2 st = Done i2 st -> bfsFdToInum fd2 st' = Done i2 st'.
Proof.
  intros H.
  apply fsSeek_Done in H as (_ & _ & i & k & e & c' & _ & _ & L & ->).
  simpl. repeat split; try reflexivity.
  - apply length_insert.
  - intros fd2 i2 H2. rewrite bfsFdToInum_set_oft by exact L. rewrite H2. reflexivity.
Qed.

Lemma X2_seek_changes_only_cursors_witness :
  inodes (after (fsSeek 0 7 SEEK_SET) opened2) = inodes opened2 /\
  freelist (after (fsSeek 0 7 SEEK_SET) opened2) = freelist opened2 /\
  disk (after (fsSeek 0 7 SEEK_SET) opened2) = disk opened2 /\
  dir (after (fsSeek 0 7 SEEK_SET) opened2) = dir opened2 /\
  length (g_oft (after (fsSeek 0 7 SEEK_SET) opened2)) = length (g_oft opened2) /\
  bfsFdToInum 1 (after (fsSeek 0 7 SEEK_SET) opened2)
  = Done 1 (after (fsSeek 0 7 SEEK_SET) opened2).
Proof.
  destruct (X2_seek_changes_only_cursors 0 7 SEEK_SET opened2 0
              (after (fsSeek 0 7 SEEK_SET) opened2) eq_refl)
    as (H1 & H2 & H3 & H4 & H5 & H6).
  exact (conj H1 (conj H2 (conj H3 (conj H4 (conj H5 (H6 1 1 eq_refl)))))).
Defined.

(** Two different inode numbers are found in different slots, and rewriting
    the cursor of one leaves the other's entry in place. *)
Lemma tell_other_inode fd2 st i2 k e c c2 :
  g_oft st !! k = Some (Some e) -> inum e <> i2 ->
  bfsFdToInum fd2 st = Done i2 st ->
  bfsTell fd2 st = Done c2 st ->
  let st' := set_oft (<[k := Some (mkOFTE (inum e) c (refs e))]> (g_oft st)) st in
  bfsTell fd2 st' = Done c2 st'.
Proof.
  intros L Hne Hfd Ht st'.
  apply bfsTell_Done in Ht as (_ & i2' & k2 & e2 & Hfd' & F2 & L2 & C2 & I2).
  rewrite Hfd in Hfd'. injection Hfd' as <-.
  assert (Hk : k2 <> k).
  { intros ->. rewrite L in L2. injection L2 as <-. contradiction. }
  rewrite <- C2.
  apply (bfsTell_of_slot fd2 st' i2 k2 e2).
  - unfold st'. rewrite bfsFdToInum_set_oft by exact L. rewrite Hfd. reflexivity.
  - unfold st'. simpl. erewrite findSlot_insert; eauto.
  - unfold st'. simpl. rewrite list_lookup_insert_ne by auto. exact L2.
Qed.

(** X3: descriptors of different files have independent cursors: a seek
    through a descriptor bound to one inode leaves the position reported for
    a descriptor bound to another inode unchanged. *)
Theorem X3_seek_isolated_across_files fd1 fd2 i1 i2 offset whence st r st' c2 :
  bfsFdToInum fd1 st = Done i1 st ->
  bfsFdToInum fd2 st = Done i2 st ->
  i1 <> i2 ->
  fsTell fd2 st = Done c2 st ->
  fsSeek fd1 offset whence st = Done r st' ->
  fsTell fd2 st' = Done c2 st'.
Proof.
  intros H1 H2 Hne Ht Hs.
  apply fsSeek_Done in Hs as (_ & _ & i & k & e & c' & Hfd & F & L & ->).
  rewrite H1 in Hfd. injection Hfd as <-.
  destruct (findSlot_Some _ _ _ F) as (e0 & L0 & I0).
  rewrite L in L0. injection L0 as <-.
  unfold fsTell in *.
  apply (tell_other_inode fd2 st i2 k e c' c2); try assumption. congruence.
Qed.

Lemma X3_seek_isolated_across_files_witness :
  fsTell 1 (after (fsSeek 0 7 SEEK_SET) openedAB)
  = Done 0 (after (fsSeek 0 7 SEEK_SET) openedAB).
Proof.
  apply (X3_seek_isolated_across_files 0 1 1 2 7 SEEK_SET openedAB 0).
  - reflexivity.
  - reflexivity.
  - discriminate.
  - reflexivity.
  - reflexivity.
Defined.

(** Binding a free slot to an inode number that no slot holds makes it the
    slot found for that number. *)
Lemma findSlot_insert_new (o : list (option OFTE)) n e :
  findSlot (inum e) o = None -> o !! n = Some None ->
  findSlot (inum e) (<[n := Some e]> o) = Some n.
Proof.
  revert n. induction o as [|x o IH]; intros [|n] F L; simpl in *; try discriminate.
  - injection L as ->. simpl. rewrite Z.eqb_refl. reflexivity.
  - destruct x as [e'|].
    + destruct (inum e' =? inum e); [discriminate|].
      destruct (findSlot (inum e) o) eqn:E; [discriminate|].
      rewrite (IH n eq_refl L). reflexivity.
    + destruct (findSlot (inum e) o) eqn:E; [discriminate|].
      rewrite (IH n eq_refl L). reflexivity.
Qed.




(** [fsClose] on a descriptor whose inode is found in slot [k] with one
    reference frees slot [k]. *)
Lemma fsClose_run fd st i k e :
  bfsFdToInum fd st = Done i st -> findSlot i (g_oft st) = Some k ->
  g_oft st !! k = Some (Some e) -> refs e = 1 ->
  fsClose fd st = Done 0 (set_oft (<[k := None]> (g_oft st)) st).
Proof.
  intros Hfd F L R. unfold fsClose.
  rewrite (bind_eq_Done _ _ _ _ _ Hfd).
  unfold bfsDerefOFT.
  assert (B : bfsFindOFTE i st = Done (Z.of_nat k) st)
    by (unfold bfsFindOFTE; rewrite F; reflexivity).
  unfold bind at 1. unfold bind at 1. rewrite B.
  rewrite Nat2Z.id, L, R. reflexivity.
Qed.

(** X4: open then close is a round trip on a file that was not open: the
    close returns 0 and the file system is back in the state before the
    open. *)
Theorem X4_open_close_round_trip fname st i fd st1 :
  dir st !! fname = Some i ->
  findSlot i (g_oft st) = None ->
  fsOpen fname st = Done (Val fd) st1 ->
  fsClose fd st1 = Done 0 st.
Proof.
  intros D F O.
  apply fsOpen_Done in O as (i' & n & D' & -> & L & ->).
  rewrite D in D'. injection D' as <-.
  assert (Hlt : (n < length (g_oft st))%nat) by (eapply lookup_lt_Some; eauto).
  rewrite (fsClose_run (Z.of_nat n) _ i n (mkOFTE i 0 1)).
  - simpl. rewrite list_insert_insert_eq, list_insert_id by exact L.
    unfold set_oft. simpl. destruct st. reflexivity.
  - apply (bfsFdToInum_of_slot _ n (mkOFTE i 0 1)). simpl.
    apply list_lookup_insert_eq. exact Hlt.
  - simpl. apply (findSlot_insert_new _ n (mkOFTE i 0 1)); assumption.
  - simpl. apply list_lookup_insert_eq. exact Hlt.
  - reflexivity.
Qed.

Lemma X4_open_close_round_trip_witness :
  fsClose 0 opened1 = Done 0 (freshDisk [10; 11; 12; 13; 14]).
Proof.
  apply (X4_open_close_round_trip "a.txt" (freshDisk [10; 11; 12; 13; 14]) 1 0 opened1).
  - reflexivity.
  - reflexivity.
  - reflexivity.
Defined.



(** ** fsWrite: cursor and mapping *)

(** A relative seek stores the wrapped sum of cursor and offset. *)
Lemma fsSeek_CUR_Done fd offset st r st' :
  fsSeek fd offset SEEK_CUR st = Done r st' ->
  0 <= offset /\
  exists i k e,
    bfsFdToInum fd st = Done i st /\ findSlot i (g_oft st) = Some k /\
    g_oft st !! k = Some (Some e) /\
    st' = set_oft (<[k := Some (mkOFTE (inum e) (wrap32 (curs e + offset)) (refs e))]>
                     (g_oft st)) st.
Proof.
  unfold fsSeek. destruct (Z.ltb_spec offset 0) as [?|Ho]; [discriminate|].
  intros H. inv_bind_as H i s0. pose proof H_1 as Hfd.
  apply bfsFdToInum_Done in H_1 as [-> _].
  inv_bind_as H_2 ofte s1.
  apply bfsFindOFTE_Done in H_2_1 as [-> (k & -> & F)].
  destruct (findSlot_Some _ _ _ F) as (e & L & I).
  simpl in H_2_2. inv_bind_as H_2_2 u s2. apply ret_Done in H_2_2_2 as [_ <-].
  inv_bind_as H_2_2_1 c s3.
  unfold getCurs in H_2_2_1_1. rewrite Nat2Z.id, L in H_2_2_1_1.
  injection H_2_2_1_1 as <- <-.
  apply setCurs_Done in H_2_2_1_2 as (e0 & L0 & ->).
  rewrite Nat2Z.id in *. rewrite L in L0. injection L0 as <-.
  split; [exact Ho|]. exists i, k, e. auto.
Qed.

(** The position [bfsTell] reports depends on the open file table only. *)
Lemma bfsTell_same_oft fd s s' c :
  g_oft s' = g_oft s -> bfsTell fd s = Done c s -> bfsTell fd s' = Done c s'.
Proof.
  intros Ho Ht.
  apply bfsTell_Done in Ht as (_ & i & k & e & Hfd & F & L & C & I).
  rewrite <- C. apply (bfsTell_of_slot fd s' i k e).
  - apply bfsFdToInum_Done in Hfd as (_ & Hpos & e' & L' & I').
    unfold bfsFdToInum. destruct (Z.ltb_spec fd 0); [lia|].
    rewrite Ho, L', I'. reflexivity.
  - rewrite Ho. exact F.
  - rewrite Ho. exact L.
Qed.

(** After a relative seek the descriptor reports the wrapped sum. *)
Lemma tell_after_seek_CUR fd offset st r st' c :
  bfsTell fd st = Done c st ->
  fsSeek fd offset SEEK_CUR st = Done r st' ->
  bfsTell fd st' = Done (wrap32 (c + offset)) st'.
Proof.
  intros Ht Hs.
  apply fsSeek_CUR_Done in Hs as (_ & i & k & e & Hfd & F & L & ->).
  apply bfsTell_Done in Ht as (_ & i' & k' & e' & Hfd' & F' & L' & C & _).
  rewrite Hfd in Hfd'. injection Hfd' as <-.
  rewrite F in F'. injection F' as <-. rewrite L in L'. injection L' as <-.
  rewrite <- C.
  apply (tell_after_set fd st i k e); assumption.
Qed.

(** One turn of the loop of [fsWrite] with the seek kept visible. *)
Lemma fsWrite_loop_turn fuel fd i tb numb cidx bidx fbn dbn s s' :
  0 < numb ->
  fsWrite_loop (S fuel) fd i tb numb cidx bidx fbn dbn s = Done tt s' ->
  exists wb d s2 dbn' s3,
    bfsRead i fbn s = Done wb s /\ 0 <= cidx /\ dbn = Val d /\
    fsSeek fd (blockCount cidx numb) SEEK_CUR
      (set_disk (<[d := memcpy wb cidx tb bidx (blockCount cidx numb)]> (disk s)) s)
    = Done 0 s2 /\
    mapOrAlloc i (wrap32 (fbn + 1)) s2 = Done dbn' s3 /\
    fsWrite_loop fuel fd i tb (numb - blockCount cidx numb) 0
      (bidx + blockCount cidx numb) (wrap32 (fbn + 1)) dbn' s3 = Done tt s'.
Proof.
  intros Hn. simpl.
  destruct (Z.leb_spec numb 0) as [?|_]; [lia|].
  intros H. inv_bind_as H wb s0. pose proof H_1 as Hrd.
  apply bfsRead_Done in H_1 as [-> _].
  destruct (Z.ltb_spec cidx 0) as [?|Hc]; [discriminate|].
  inv_bind_as H_2 r1 s1. apply bioWrite_Done in H_2_1 as (d & -> & ->).
  inv_bind_as H_2_2 r2 s2. pose proof H_2_2_1 as Hsk.
  apply fsSeek_Done in H_2_2_1 as (-> & _).
  inv_bind_as H_2_2_2 dbn' s3.
  exists wb, d, s2, dbn', s3. auto 10.
Qed.

(** The invariant rule of the loop with the seek kept visible. *)
Lemma fsWrite_loop_inv_seek fd i tb (P : Z -> Z -> Z -> Z -> rv -> BFS -> Prop) :
  (forall numb cidx bidx fbn dbn s wb d s2 dbn' s3,
     0 < numb -> P numb cidx bidx fbn dbn s ->
     bfsRead i fbn s = Done wb s -> 0 <= cidx -> dbn = Val d ->
     fsSeek fd (blockCount cidx numb) SEEK_CUR
       (set_disk (<[d := memcpy wb cidx tb bidx (blockCount cidx numb)]> (disk s)) s)
     = Done 0 s2 ->
     mapOrAlloc i (wrap32 (fbn + 1)) s2 = Done dbn' s3 ->
     P (numb - blockCount cidx numb) 0 (bidx + blockCount cidx numb)
       (wrap32 (fbn + 1)) dbn' s3) ->
  forall fuel numb cidx bidx fbn dbn s s',
    P numb cidx bidx fbn dbn s ->
    fsWrite_loop fuel fd i tb numb cidx bidx fbn dbn s = Done tt s' ->
    exists numb' cidx' bidx' fbn' dbn',
      numb' <= 0 /\ P numb' cidx' bidx' fbn' dbn' s'.
Proof.
  intros Step. induction fuel as [|fuel IH]; intros numb cidx bidx fbn dbn s s' HP H.
  - simpl in H. destruct (Z.leb_spec numb 0) as [Hn|Hn]; [|discriminate].
    apply ret_Done in H as [_ <-]. eauto 8.
  - destruct (Z.leb_spec numb 0) as [Hn|Hn].
    + simpl in H. destruct (Z.leb_spec numb 0); [|lia].
      apply ret_Done in H as [_ <-]. eauto 8.
    + apply fsWrite_loop_turn in H
        as (wb & d & s2 & dbn' & s3 & Hrd & Hc & -> & Hsk & Hm & Hl); [|exact Hn].
      eapply IH; [|exact Hl].
      eapply Step; eauto.
Qed.

Lemma mapOrAlloc_oft i fbn s r s' :
  mapOrAlloc i fbn s = Done r s' -> g_oft s' = g_oft s.
Proof.
  intros H. apply mapOrAlloc_Done in H
    as [(d & _ & _ & ->) | (_ & d & fl & sz & _ & _ & _ & _ & _ & _ & _ & Ho)];
    [reflexivity | exact Ho].
Qed.

(** X6: a returning write of [numb] bytes moves the cursor forward by exactly
    [numb]: with the cursor at [c] before, [fsTell] gives [c + numb] after. *)
Theorem X6_write_advances_cursor fd numb buf st r st' c :
  fsTell fd st = Done c st ->
  0 <= c -> c + numb <= INT_MAX ->
  fsWrite fd numb buf st = Done r st' ->
  fsTell fd st' = Done (c + numb) st'.
Proof.
  intros Ht Hc Hmax Hw. unfold fsTell in *.
  apply fsWrite_Done in Hw as (Hnb & i & c' & dbn & s1 & Hfd & Ht' & Hm & Hl).
  rewrite Ht in Ht'. injection Ht' as <-.
  destruct (cursor_split c Hc) as (Eq & Er & Hr & Hdm).
  rewrite Eq, Er in *.
  set (P := fun nb cidx bidx fbn (dbn : rv) s =>
    writePos c numb nb cidx bidx fbn /\ bfsTell fd s = Done (c + bidx) s).
  assert (Hend : exists nb' cidx' bidx' fbn' dbn', nb' <= 0 /\ P nb' cidx' bidx' fbn' dbn' st').
  { eapply (fsWrite_loop_inv_seek fd i _ P); [ | | exact Hl].
    - intros nb cidx bidx fbn dbn0 s wb d s2 dbn' s3 Hp [Hpos Htl] _ _ _ Hsk Hm3.
      destruct (writePos_step _ _ _ _ _ _ Hc Hmax Hp Hpos) as (Hw32 & _ & _ & Hpos').
      rewrite Hw32. split; [exact Hpos'|].
      apply (bfsTell_same_oft fd s2 s3); [eapply mapOrAlloc_oft; exact Hm3|].
      eapply tell_after_seek_CUR in Hsk;
        [|apply (bfsTell_same_oft fd s); [reflexivity | exact Htl]].
      rewrite wrap32_id in Hsk.
      + replace (c + (bidx + blockCount cidx nb)) with (c + bidx + blockCount cidx nb) by lia.
        exact Hsk.
      + destruct Hpos as (Hci & Hb & Hnb0 & Hsum & _).
        destruct (blockCount_range cidx nb Hp Hci) as (Hr1 & _).
        unfold INT_MAX in *. lia.
    - split; [unfold writePos; repeat split; lia|].
      replace (c + 0) with c by lia.
      apply (bfsTell_same_oft fd st s1); [eapply mapOrAlloc_oft; exact Hm | exact Ht]. }
  destruct Hend as (nb' & cidx' & bidx' & fbn' & dbn' & Hle & (_ & _ & Hnb' & Hsum & _) & Htl).
  replace (c + numb) with (c + bidx') by lia. exact Htl.
Qed.

Lemma X6_write_advances_cursor_witness :
  fsTell 0 (after (fsWrite 0 600 (replicate 600 88)) seeked1546)
  = Done (1546 + 600) (after (fsWrite 0 600 (replicate 600 88)) seeked1546).
Proof.
  apply (X6_write_advances_cursor 0 600 (replicate 600 88) seeked1546 0).
  - reflexivity.
  - lia.
  - unfold INT_MAX. lia.
  - vm_compute. reflexivity.
Defined.

(** X7: after a returning write the block under the cursor is mapped and,
    when [numb > 0], so is every file block up to and including the one after
    the block of the last byte written: the loop always maps the next block
    before it tests whether bytes are left. *)
Theorem X7_write_maps_through_next_block fd numb buf st r st' i c :
  bfsFdToInum fd st = Done i st ->
  fsTell fd st = Done c st ->
  0 <= c -> c + numb <= INT_MAX ->
  fsWrite fd numb buf st = Done r st' ->
  forall f,
    f = c / BYTESPERBLOCK \/
    (0 < numb /\ c / BYTESPERBLOCK < f /\ (f - 1) * BYTESPERBLOCK < c + numb) ->
    exists d, chainOf i st' !! f = Some d.
Proof.
  intros Hfd Ht Hc Hmax Hw.
  apply fsWrite_Done in Hw as (Hnb & i' & c' & dbn & s1 & Hfd' & Ht' & Hm & Hl).
  unfold fsTell in Ht. rewrite Hfd in Hfd'. rewrite Ht in Ht'.
  injection Hfd' as <-. injection Ht' as <-.
  destruct (cursor_split c Hc) as (Eq & Er & Hr & Hdm).
  rewrite Eq, Er in *.
  set (P := fun nb cidx bidx fbn (dbn : rv) s =>
    writePos c numb nb cidx bidx fbn /\
    c / BYTESPERBLOCK <= fbn /\
    (0 < bidx -> (fbn - 1) * BYTESPERBLOCK < c + bidx <= fbn * BYTESPERBLOCK) /\
    (bidx = 0 -> fbn = c / BYTESPERBLOCK) /\
    forall f, c / BYTESPERBLOCK <= f <= fbn -> chainOf i s !! f <> None).
  assert (Hmapped : forall fbn s dbn0 s', mapOrAlloc i fbn s = Done dbn0 s' ->
            chainOf i s' !! fbn <> None /\
            forall f, chainOf i s !! f <> None -> chainOf i s' !! f <> None).
  { intros fbn s dbn0 s' Hm0.
    apply mapOrAlloc_Done in Hm0
      as [(d & Hd & _ & ->) | (_ & d & fl & sz & _ & _ & _ & Hch & _)].
    - split; [congruence | auto].
    - rewrite Hch. split; [rewrite lookup_insert_eq; discriminate|].
      intros f Hf. destruct (decide (f = fbn)) as [->|Hne].
      + rewrite lookup_insert_eq. discriminate.
      + rewrite lookup_insert_ne by auto. exact Hf. }
  assert (Hend : exists nb' cidx' bidx' fbn' dbn', nb' <= 0 /\ P nb' cidx' bidx' fbn' dbn' st').
  { eapply (fsWrite_loop_inv fd i _ P); [ | | exact Hl].
    - intros nb cidx bidx fbn dbn0 s wb d o dbn' s3 Hp
        (Hpos & Hlo & Hlast & Hfirst & Hall) _ _ _ Hm3.
      destruct (writePos_step _ _ _ _ _ _ Hc Hmax Hp Hpos) as (Hw32 & _ & _ & Hpos').
      rewrite Hw32 in *.
      destruct (Hmapped _ _ _ _ Hm3) as (Hnew & Hkeep).
      destruct Hpos as (Hci & Hb & Hnb0 & Hsum & Hposeq). specialize (Hposeq Hp).
      destruct (blockCount_range cidx nb Hp Hci) as (Hr1 & Hr2 & _).
      split; [exact Hpos'|]. split; [lia|].
      split; [intros _; unfold BYTESPERBLOCK in *; lia|].
      split; [intros; lia|].
      intros f Hf. destruct (decide (f = fbn + 1)) as [->|Hne]; [exact Hnew|].
      apply Hkeep. rewrite chainOf_set_oft_disk. apply Hall. lia.
    - destruct (Hmapped _ _ _ _ Hm) as (Hnew & _).
      split; [unfold writePos; repeat split; lia|].
      split; [lia|]. split; [intros; lia|]. split; [reflexivity|].
      intros f Hf. assert (f = c / BYTESPERBLOCK) as -> by lia. exact Hnew. }
  destruct Hend as (nb' & cidx' & bidx' & fbn' & dbn' & Hle &
                    (_ & _ & Hnb' & Hsum & _) & Hlo & Hlast & Hfirst & Hall).
  assert (bidx' = numb) by lia. subst bidx'.
  intros f Hf.
  assert (Hin : c / BYTESPERBLOCK <= f <= fbn').
  { destruct Hf as [-> | (Hpos & Hgt & Hlt)]; [lia|].
    specialize (Hlast Hpos). unfold BYTESPERBLOCK in *. split; [lia|].
    assert ((f - 1) * 512 < fbn' * 512) by lia. lia. }
  specialize (Hall f Hin).
  destruct (chainOf i st' !! f) as [d|]; [eauto | contradiction].
Qed.

Lemma X7_write_maps_through_next_block_witness :
  exists d, chainOf 1 (after (fsWrite 0 512 (replicate 512 88)) opened1) !! 1 = Some d.
Proof.
  apply (X7_write_maps_through_next_block 0 512 (replicate 512 88) opened1 0
           (after (fsWrite 0 512 (replicate 512 88)) opened1) 1 0).
  - reflexivity.
  - reflexivity.
  - lia.
  - unfold INT_MAX. lia.
  - vm_compute. reflexivity.
  - right. repeat split; reflexivity.
Defined.

(** ** fsWrite: the bytes on the device *)

Lemma memcpy_lookup_in dst di src si n j :
  0 <= di -> 0 <= si -> di <= j < di + n ->
  di <= Z.of_nat (length dst) -> si + n <= Z.of_nat (length src) ->
  memcpy dst di src si n !! Z.to_nat j = src !! Z.to_nat (si + (j - di)).
Proof.
  intros Hdi Hsi Hj Hd Hs. unfold memcpy.
  rewrite lookup_app_r by (rewrite length_take; lia).
  rewrite lookup_app_l by (rewrite !length_take, length_drop; lia).
  rewrite lookup_take_lt by (rewrite length_take; lia).
  rewrite lookup_drop, length_take. f_equal. lia.
Qed.

Lemma block_of_offset fbn j :
  0 <= j < BYTESPERBLOCK ->
  (fbn * BYTESPERBLOCK + j) / BYTESPERBLOCK = fbn /\
  (fbn * BYTESPERBLOCK + j) mod BYTESPERBLOCK = j.
Proof.
  intros Hj. unfold BYTESPERBLOCK in *.
  rewrite Z.add_comm, Z.div_add, Z.mod_add by lia.
  rewrite Z.div_small, Z.mod_small by lia. lia.
Qed.

Lemma offset_in_block o :
  o = o / BYTESPERBLOCK * BYTESPERBLOCK + o mod BYTESPERBLOCK /\
  0 <= o mod BYTESPERBLOCK < BYTESPERBLOCK.
Proof.
  unfold BYTESPERBLOCK.
  pose proof (Z.div_mod o 512). pose proof (Z.mod_pos_bound o 512). lia.
Qed.

(** The byte at an offset of a mapped, present block. *)
Lemma byteAt_block i s fbn d blk j :
  chainOf i s !! fbn = Some d -> disk s !! d = Some blk ->
  0 <= j < BYTESPERBLOCK ->
  byteAt i (fbn * BYTESPERBLOCK + j) s = blk !! Z.to_nat j.
Proof.
  intros Hc Hd Hj. unfold byteAt.
  destruct (block_of_offset fbn j Hj) as [-> ->].
  rewrite Hc, Hd. reflexivity.
Qed.

Lemma byteAt_mapped i o s v :
  byteAt i o s = Some v -> chainOf i s !! (o / BYTESPERBLOCK) <> None.
Proof.
  unfold byteAt. destruct (chainOf i s !! (o / BYTESPERBLOCK)); [discriminate|].
  discriminate.
Qed.

(** What storing one block step's bytes does to the bytes of the file: the
    bytes of the step appear at the step's offsets, every other byte stays. *)
Lemma byteAt_store i s fbn d wb cidx tb bidx wc oft o :
  chainInj i s -> chainOf i s !! fbn = Some d -> disk s !! d = Some wb ->
  Z.of_nat (length wb) = BYTESPERBLOCK ->
  0 <= cidx -> 0 <= wc -> cidx + wc <= BYTESPERBLOCK ->
  0 <= bidx -> bidx + wc <= Z.of_nat (length tb) ->
  byteAt i o (set_oft oft (set_disk (<[d := memcpy wb cidx tb bidx wc]> (disk s)) s))
  = if (fbn * BYTESPERBLOCK + cidx <=? o) && (o <? fbn * BYTESPERBLOCK + cidx + wc)
    then tb !! Z.to_nat (bidx + (o - (fbn * BYTESPERBLOCK + cidx)))
    else byteAt i o s.
Proof.
  intros Hinj Hch Hd Hlen Hci Hwc Hfit Hb Htb.
  destruct (offset_in_block o) as (Ho & Hm).
  set (q := o / BYTESPERBLOCK) in *. set (m := o mod BYTESPERBLOCK) in *.
  unfold byteAt. rewrite chainOf_set_oft_disk. fold q. fold m. simpl.
  assert (Hq : fbn * BYTESPERBLOCK <= o < fbn * BYTESPERBLOCK + BYTESPERBLOCK -> q = fbn).
  { unfold BYTESPERBLOCK in *. intros Hr. nia. }
  destruct (decide (q = fbn)) as [Heq|Hneq].
  - rewrite Heq, Hch, lookup_insert_eq, Hd.
    assert (Hm' : m = o - fbn * BYTESPERBLOCK) by (rewrite <- Heq; lia).
    destruct (Z.leb_spec (fbn * BYTESPERBLOCK + cidx) o) as [H1|H1]; simpl.
    + destruct (Z.ltb_spec o (fbn * BYTESPERBLOCK + cidx + wc)) as [H2|H2].
      * rewrite memcpy_lookup_in by lia. f_equal. lia.
      * apply memcpy_lookup_after; lia.
    + apply memcpy_lookup_before; lia.
  - assert (Hout : (fbn * BYTESPERBLOCK + cidx <=? o)
                   && (o <? fbn * BYTESPERBLOCK + cidx + wc) = false).
    { destruct (Z.leb_spec (fbn * BYTESPERBLOCK + cidx) o) as [H1|H1]; [|reflexivity].
      destruct (Z.ltb_spec o (fbn * BYTESPERBLOCK + cidx + wc)) as [H2|H2]; [|reflexivity].
      exfalso. apply Hneq, Hq. lia. }
    rewrite Hout.
    destruct (chainOf i s !! q) as [d'|] eqn:Hq'; [|reflexivity].
    assert (d' <> d) by (intros ->; apply Hneq; eapply Hinj; eauto).
    rewrite lookup_insert_ne by auto. reflexivity.
Qed.

(** The "alloc if not mapped" step leaves the bytes of mapped blocks alone. *)
Lemma byteAt_mapOrAlloc i fbn s r s' o :
  mapOrAlloc i fbn s = Done r s' -> allocSound i s ->
  chainOf i s !! (o / BYTESPERBLOCK) <> None ->
  byteAt i o s' = byteAt i o s.
Proof.
  intros Hm [_ Hdis] Hmapped.
  apply mapOrAlloc_Done in Hm
    as [(d & _ & _ & ->) | (Hnone & d & fl & sz & Hfl & _ & _ & Hch & Hdk & _)];
    [reflexivity|].
  unfold byteAt. rewrite Hch, Hdk.
  destruct (decide (o / BYTESPERBLOCK = fbn)) as [Heq|Hne]; [congruence|].
  rewrite lookup_insert_ne by auto.
  destruct (chainOf i s !! (o / BYTESPERBLOCK)) as [d'|] eqn:E; [|reflexivity].
  assert (d' <> d).
  { intros ->. apply (Hdis _ _ E). rewrite Hfl. left. }
  rewrite lookup_insert_ne by auto. reflexivity.
Qed.

Lemma fileSound_store i s fbn d wb cidx tb bidx wc oft :
  fileSound i s -> chainOf i s !! fbn = Some d -> disk s !! d = Some wb ->
  0 <= cidx -> 0 <= wc -> cidx + wc <= BYTESPERBLOCK ->
  0 <= bidx -> bidx + wc <= Z.of_nat (length tb) ->
  fileSound i (set_oft oft (set_disk (<[d := memcpy wb cidx tb bidx wc]> (disk s)) s)).
Proof.
  intros (Hsnd & Hinj & Hwhole) Hch Hd Hci Hwc Hfit Hb Htb.
  split; [exact Hsnd|]. split; [exact Hinj|].
  intros f d' Hf. rewrite chainOf_set_oft_disk in Hf. simpl.
  destruct (Hwhole f d' Hf) as (blk & Hblk & Hlen).
  destruct (decide (d' = d)) as [->|Hne].
  - rewrite Hd in Hblk. injection Hblk as <-.
    rewrite lookup_insert_eq. eexists. split; [reflexivity|].
    rewrite memcpy_length; lia.
  - rewrite lookup_insert_ne by auto. eauto.
Qed.

Lemma fileSound_mapOrAlloc i fbn s r s' :
  mapOrAlloc i fbn s = Done r s' -> fileSound i s -> fileSound i s'.
Proof.
  intros Hm ((Hnd & Hdis) & Hinj & Hwhole).
  apply mapOrAlloc_Done in Hm
    as [(d & _ & _ & ->) | (Hnone & d & fl & sz & Hfl & _ & Hfl' & Hch & Hdk & _)].
  { repeat split; assumption. }
  rewrite Hfl in Hnd, Hdis. apply NoDup_cons in Hnd as [Hdfl Hndfl].
  assert (Hfresh : forall f, chainOf i s !! f <> Some d).
  { intros f Hf. apply (Hdis f d Hf). left. }
  split; [split|split].
  - rewrite Hfl'. exact Hndfl.
  - intros f d'. rewrite Hch, Hfl'. intros Hf.
    destruct (decide (f = fbn)) as [->|Hne].
    + rewrite lookup_insert_eq in Hf. injection Hf as <-. exact Hdfl.
    + rewrite lookup_insert_ne in Hf by auto.
      intros Hin. apply (Hdis f d' Hf). right. exact Hin.
  - intros f1 f2 d'. rewrite Hch. intros H1 H2.
    destruct (decide (f1 = fbn)) as [->|Hn1]; destruct (decide (f2 = fbn)) as [->|Hn2];
      try reflexivity.
    + rewrite lookup_insert_eq in H1. rewrite lookup_insert_ne in H2 by auto.
      injection H1 as <-. destruct (Hfresh f2 H2).
    + rewrite lookup_insert_eq in H2. rewrite lookup_insert_ne in H1 by auto.
      injection H2 as <-. destruct (Hfresh f1 H1).
    + rewrite lookup_insert_ne in H1, H2 by auto. eapply Hinj; eauto.
  - intros f d'. rewrite Hch, Hdk. intros Hf.
    destruct (decide (f = fbn)) as [->|Hne].
    + rewrite lookup_insert_eq in Hf. injection Hf as <-.
      rewrite lookup_insert_eq. exists zeroBlock. split; [reflexivity | apply zeroBlock_length].
    + rewrite lookup_insert_ne in Hf by auto.
      assert (d' <> d) by (intros ->; destruct (Hfresh f Hf)).
      rewrite lookup_insert_ne by auto. eauto.
Qed.

Lemma mapOrAlloc_chain_mono i fbn s r s' f d :
  mapOrAlloc i fbn s = Done r s' ->
  chainOf i s !! f = Some d -> chainOf i s' !! f = Some d.
Proof.
  intros Hm Hf. apply mapOrAlloc_Done in Hm
    as [(d0 & _ & _ & ->) | (Hnone & d0 & fl & sz & _ & _ & _ & Hch & _)];
    [exact Hf|].
  rewrite Hch. destruct (decide (f = fbn)) as [->|Hne]; [congruence|].
  rewrite lookup_insert_ne by auto. exact Hf.
Qed.

Lemma mapOrAlloc_mapped i fbn s r s' :
  mapOrAlloc i fbn s = Done r s' ->
  exists d, r = Val d /\ chainOf i s' !! fbn = Some d.
Proof.
  intros Hm. apply mapOrAlloc_Done in Hm
    as [(d0 & Hd & -> & ->) | (Hnone & d0 & fl & sz & _ & -> & _ & Hch & _)].
  - eauto.
  - exists d0. rewrite Hch, lookup_insert_eq. auto.
Qed.

(** What a returning [fsWrite] does to a sound file: the file stays sound,
    mapped blocks stay mapped where they were, the bytes of the caller's
    buffer are at the offsets from the cursor on, and every other byte of the
    blocks mapped before is as it was. *)
Lemma fsWrite_effect fd numb buf st r st' i c :
  fileSound i st ->
  bfsFdToInum fd st = Done i st ->
  fsTell fd st = Done c st ->
  0 <= c -> c + numb <= INT_MAX ->
  fsWrite fd numb buf st = Done r st' ->
  fileSound i st' /\
  (forall f d, chainOf i st !! f = Some d -> chainOf i st' !! f = Some d) /\
  (forall k, 0 <= k < numb -> byteAt i (c + k) st' = buf !! Z.to_nat k) /\
  (forall o, chainOf i st !! (o / BYTESPERBLOCK) <> None ->
     o < c \/ c + numb <= o -> byteAt i o st' = byteAt i o st).
Proof.
  intros Hsound Hfd Ht Hc Hmax Hw.
  apply fsWrite_Done in Hw as (Hnb & i' & c' & dbn & s1 & Hfd' & Ht' & Hm & Hl).
  unfold fsTell in Ht. rewrite Hfd in Hfd'. rewrite Ht in Ht'.
  injection Hfd' as <-. injection Ht' as <-.
  destruct (cursor_split c Hc) as (Eq & Er & Hr & Hdm).
  rewrite Eq, Er in *.
  set (tb := take (Z.to_nat numb) buf) in *.
  assert (Htb : Z.of_nat (length tb) = numb) by (unfold tb; rewrite length_take; lia).
  set (P := fun nb cidx bidx fbn (dbn : rv) s =>
    writePos c numb nb cidx bidx fbn /\
    (exists d, dbn = Val d /\ chainOf i s !! fbn = Some d) /\
    fileSound i s /\
    (forall f d, chainOf i st !! f = Some d -> chainOf i s !! f = Some d) /\
    (forall k, 0 <= k < bidx -> byteAt i (c + k) s = tb !! Z.to_nat k) /\
    (forall o, chainOf i st !! (o / BYTESPERBLOCK) <> None ->
       o < c \/ c + bidx <= o -> byteAt i o s = byteAt i o st)).
  assert (Hend : exists nb' cidx' bidx' fbn' dbn', nb' <= 0 /\ P nb' cidx' bidx' fbn' dbn' st').
  { eapply (fsWrite_loop_inv fd i tb P); [ | | exact Hl].
    - intros nb cidx bidx fbn dbn0 s wb d o dbn' s3 Hp
        (Hpos & (d1 & Hd1 & Hch) & Hsnd & Hmono & Hwr & Hfr) Hrd _ Hdbn Hm3.
      rewrite Hdbn in Hd1. injection Hd1 as <-.
      apply bfsRead_chainOf in Hrd as (d0 & Hch0 & Hwb).
      rewrite Hch in Hch0. injection Hch0 as <-.
      destruct (writePos_step _ _ _ _ _ _ Hc Hmax Hp Hpos) as (Hw32 & _ & _ & Hpos').
      rewrite Hw32 in *.
      destruct Hpos as (Hci & Hb & Hnb0 & Hsum & Hposeq). specialize (Hposeq Hp).
      destruct (blockCount_range cidx nb Hp Hci) as (Hr1 & Hr2 & _).
      destruct Hsnd as (Hall & Hinj & Hwhole).
      destruct (Hwhole fbn d Hch) as (wb' & Hwb' & Hlen).
      rewrite Hwb in Hwb'. injection Hwb' as <-.
      set (s2 := set_oft o (set_disk
                   (<[d := memcpy wb cidx tb bidx (blockCount cidx nb)]> (disk s)) s)) in *.
      assert (Hsnd2 : fileSound i s2).
      { apply (fileSound_store i s fbn d wb); try lia; try assumption.
        exact (conj Hall (conj Hinj Hwhole)). }
      assert (Hst : forall o', byteAt i o' s2 =
                 if (fbn * BYTESPERBLOCK + cidx <=? o')
                    && (o' <? fbn * BYTESPERBLOCK + cidx + blockCount cidx nb)
                 then tb !! Z.to_nat (bidx + (o' - (fbn * BYTESPERBLOCK + cidx)))
                 else byteAt i o' s).
      { intros o'. apply (byteAt_store i s fbn d wb); try lia; assumption. }
      assert (Hwr2 : forall k, 0 <= k < bidx + blockCount cidx nb ->
                 byteAt i (c + k) s2 = tb !! Z.to_nat k).
      { intros k Hk. rewrite Hst.
        destruct (Z.leb_spec (fbn * BYTESPERBLOCK + cidx) (c + k)) as [H1|H1]; simpl.
        - destruct (Z.ltb_spec (c + k) (fbn * BYTESPERBLOCK + cidx + blockCount cidx nb))
            as [H2|H2]; [f_equal; lia | lia].
        - apply Hwr. lia. }
      assert (Hfr2 : forall o', chainOf i st !! (o' / BYTESPERBLOCK) <> None ->
                 o' < c \/ c + (bidx + blockCount cidx nb) <= o' ->
                 byteAt i o' s2 = byteAt i o' st).
      { intros o' Hmp Hout. rewrite Hst.
        destruct (Z.leb_spec (fbn * BYTESPERBLOCK + cidx) o') as [H1|H1]; simpl.
        - destruct (Z.ltb_spec o' (fbn * BYTESPERBLOCK + cidx + blockCount cidx nb))
            as [H2|H2]; [lia|]. apply Hfr; [exact Hmp | lia].
        - apply Hfr; [exact Hmp | lia]. }
      destruct Hsnd2 as (Hall2 & Hinj2 & Hwhole2).
      split; [exact Hpos'|].
      split; [eapply mapOrAlloc_mapped; exact Hm3|].
      split; [eapply fileSound_mapOrAlloc;
                [exact Hm3 | exact (conj Hall2 (conj Hinj2 Hwhole2))]|].
      split; [intros f d' Hf; eapply mapOrAlloc_chain_mono; [exact Hm3|];
              unfold s2; rewrite chainOf_set_oft_disk; auto|].
      split.
      + intros k Hk. rewrite <- (Hwr2 k Hk).
        apply (byteAt_mapOrAlloc _ _ _ _ _ _ Hm3 Hall2).
        destruct (tb !! Z.to_nat k) as [v|] eqn:Ev.
        * apply (byteAt_mapped _ _ _ v). rewrite Hwr2 by exact Hk. exact Ev.
        * apply lookup_ge_None in Ev. lia.
      + intros o' Hmp Hout. rewrite <- (Hfr2 o' Hmp Hout).
        apply (byteAt_mapOrAlloc _ _ _ _ _ _ Hm3 Hall2).
        unfold s2. rewrite chainOf_set_oft_disk.
        destruct (chainOf i st !! (o' / BYTESPERBLOCK)) as [d'|] eqn:E; [|contradiction].
        rewrite (Hmono _ _ E). discriminate.
    - split; [unfold writePos; repeat split; lia|].
      split; [eapply mapOrAlloc_mapped; exact Hm|].
      split; [eapply fileSound_mapOrAlloc; eauto|].
      split; [intros f d' Hf; eapply mapOrAlloc_chain_mono; eauto|].
      split; [intros k Hk; lia|].
      intros o' Hmp _. destruct Hsound as (Hall & _).
      apply (byteAt_mapOrAlloc _ _ _ _ _ _ Hm Hall Hmp). }
  destruct Hend as (nb' & cidx' & bidx' & fbn' & dbn' & Hle &
                    (_ & _ & Hnb' & Hsum & _) & _ & Hsnd & Hmono & Hwr & Hfr).
  assert (bidx' = numb) by lia. subst bidx'.
  split; [exact Hsnd|]. split; [exact Hmono|]. split; [|exact Hfr].
  intros k Hk. rewrite (Hwr k Hk). unfold tb. apply lookup_take_lt. lia.
Qed.

Lemma fileSound_unmapped i st :
  chainOf i st = ∅ -> NoDup (freelist st) -> fileSound i st.
Proof.
  intros He Hnd. repeat split.
  - exact Hnd.
  - intros f d. rewrite He, lookup_empty. discriminate.
  - intros f1 f2 d. rewrite He, lookup_empty. discriminate.
  - intros f d. rewrite He, lookup_empty. discriminate.
Qed.

Lemma fsSeek_fileSound fd offset whence st r st' i :
  fsSeek fd offset whence st = Done r st' -> fileSound i st -> fileSound i st'.
Proof.
  intros H Hs. apply fsSeek_Done in H as (_ & _ & i0 & k & e & c' & _ & _ & _ & ->).
  exact Hs.
Qed.

Lemma opened1_sound : fileSound 1 opened1.
Proof.
  apply fileSound_unmapped; [reflexivity|].
  apply (bool_decide_unpack _). vm_compute. reflexivity.
Qed.

Lemma seeked1546_sound : fileSound 1 seeked1546.
Proof.
  apply (fsSeek_fileSound 0 1546 SEEK_SET opened1 0); [reflexivity | exact opened1_sound].
Qed.

Lemma written300_sound : fileSound 1 written300.
Proof.
  apply (fsSeek_fileSound 0 0 SEEK_SET
           (after (fsWrite 0 300 (replicate 300 88)) opened1) 0); [reflexivity|].
  apply (fsWrite_effect 0 300 (replicate 300 88) opened1 0 _ 1 0).
  - exact opened1_sound.
  - reflexivity.
  - reflexivity.
  - lia.
  - unfold INT_MAX. lia.
  - vm_compute. reflexivity.
Qed.

(** X8: what a returning write stores is on the device: on a sound file,
    byte [k] of the caller's buffer is the byte of the file at offset
    [c + k], for every [k] below [numb], whether the cursor [c] is
    block-aligned or not and however many blocks the range spans. *)
Theorem X8_write_stores_bytes fd numb buf st r st' i c :
  fileSound i st ->
  bfsFdToInum fd st = Done i st ->
  fsTell fd st = Done c st ->
  0 <= c -> c + numb <= INT_MAX ->
  fsWrite fd numb buf st = Done r st' ->
  forall k, 0 <= k < numb -> byteAt i (c + k) st' = buf !! Z.to_nat k.
Proof.
  intros Hs Hfd Ht Hc Hmax Hw.
  destruct (fsWrite_effect _ _ _ _ _ _ _ _ Hs Hfd Ht Hc Hmax Hw) as (_ & _ & H & _).
  exact H.
Qed.

Lemma X8_write_stores_bytes_witness :
  byteAt 1 (1546 + 599) (after (fsWrite 0 600 (replicate 600 88)) seeked1546)
  = replicate 600 88 !! Z.to_nat 599.
Proof.
  apply (X8_write_stores_bytes 0 600 (replicate 600 88) seeked1546 0
           (after (fsWrite 0 600 (replicate 600 88)) seeked1546) 1 1546).
  - exact seeked1546_sound.
  - reflexivity.
  - reflexivity.
  - lia.
  - unfold INT_MAX. lia.
  - vm_compute. reflexivity.
  - lia.
Defined.

(** X9: a returning write leaves the rest of the file alone: on a sound
    file, every byte of a block that was mapped before the call and that lies
    outside the written range [c, c + numb) is what it was. *)
Theorem X9_write_keeps_other_bytes fd numb buf st r st' i c :
  fileSound i st ->
  bfsFdToInum fd st = Done i st ->
  fsTell fd st = Done c st ->
  0 <= c -> c + numb <= INT_MAX ->
  fsWrite fd numb buf st = Done r st' ->
  forall o d, chainOf i st !! (o / BYTESPERBLOCK) = Some d ->
    o < c \/ c + numb <= o -> byteAt i o st' = byteAt i o st.
Proof.
  intros Hs Hfd Ht Hc Hmax Hw o d Hmp Hout.
  destruct (fsWrite_effect _ _ _ _ _ _ _ _ Hs Hfd Ht Hc Hmax Hw) as (_ & _ & _ & H).
  apply H; [congruence | exact Hout].
Qed.

Lemma X9_write_keeps_other_bytes_witness :
  byteAt 1 2 (after (fsWrite 0 2 [65; 66]) written300) = byteAt 1 2 written300.
Proof.
  refine (X9_write_keeps_other_bytes 0 2 [65; 66] written300 0
            (after (fsWrite 0 2 [65; 66]) written300) 1 0 _ _ _ _ _ _ 2 10 _ _).
  - exact written300_sound.
  - reflexivity.
  - reflexivity.
  - lia.
  - unfold INT_MAX. lia.
  - vm_compute. reflexivity.
  - vm_compute. reflexivity.
  - right. lia.
Defined.

(** X10: a returning write keeps the data model's invariants of the file it
    writes: the free list stays duplicate-free and disjoint from the chain,
    no disk block is mapped twice, every mapped block is a whole block on the
    device; and every file block keeps the disk block it had. *)
Theorem X10_write_keeps_file_sound fd numb buf st r st' i c :
  fileSound i st ->
  bfsFdToInum fd st = Done i st ->
  fsTell fd st = Done c st ->
  0 <= c -> c + numb <= INT_MAX ->
  fsWrite fd numb buf st = Done r st' ->
  fileSound i st' /\
  forall f d, chainOf i st !! f = Some d -> chainOf i st' !! f = Some d.
Proof.
  intros Hs Hfd Ht Hc Hmax Hw.
  destruct (fsWrite_effect _ _ _ _ _ _ _ _ Hs Hfd Ht Hc Hmax Hw) as (H1 & H2 & _).
  split; assumption.
Qed.

Lemma X10_write_keeps_file_sound_witness :
  fileSound 1 (after (fsWrite 0 2 [65; 66]) written300) /\
  forall f d, chainOf 1 written300 !! f = Some d ->
    chainOf 1 (after (fsWrite 0 2 [65; 66]) written300) !! f = Some d.
Proof.
  apply (X10_write_keeps_file_sound 0 2 [65; 66] written300 0
           (after (fsWrite 0 2 [65; 66]) written300) 1 0).
  - exact written300_sound.
  - reflexivity.
  - reflexivity.
  - lia.
  - unfold INT_MAX. lia.
  - vm_compute. reflexivity.
Defined.

(** ** fsWrite: what it leaves alone, what it takes, when it returns *)

(** The state after the "alloc if not mapped" step, in full. *)
Lemma mapOrAlloc_state i fbn s r s' :
  mapOrAlloc i fbn s = Done r s' ->
  s' = s \/
  exists ino d fl,
    inodes s !! i = Some ino /\ chain ino !! fbn = None /\ freelist s = d :: fl /\
    s' = mkBFS (g_oft s)
               (<[i := mkInode (isize ino + BYTESPERBLOCK) (<[fbn := d]> (chain ino))]>
                  (inodes s))
               fl (<[d := zeroBlock]> (disk s)) (dir s).
Proof.
  unfold mapOrAlloc. intros H. inv_bind_as H r0 s0.
  apply bfsFbnToDbn_Done in H_1 as (-> & ino & Hi & Hr).
  destruct r0 as [d|e].
  - apply ret_Done in H_2 as [_ <-]. left. reflexivity.
  - destruct Hr as [-> Hc]. right.
    inv_bind_as H_2 r1 s1. unfold bfsAllocBlock in H_2_1. rewrite Hi in H_2_1.
    destruct (freelist s) as [|d fl] eqn:Fl.
    + injection H_2_1 as <- <-. inv_bind_as H_2_2 r2 s2.
      apply bfsFbnToDbn_Done in H_2_2_1 as (-> & ino' & Hi' & Hr').
      rewrite Hi in Hi'. injection Hi' as <-.
      destruct r2 as [d'|e']; [congruence|].
      inv_bind_as H_2_2_2 r3 s3. discriminate.
    + injection H_2_1 as <- <-. inv_bind_as H_2_2 r2 s2.
      apply bfsFbnToDbn_Done in H_2_2_1 as (-> & ino' & Hi' & Hr').
      simpl in Hi'. rewrite lookup_insert_eq in Hi'. injection Hi' as <-.
      simpl in Hr'. destruct r2 as [d'|e'].
      * rewrite lookup_insert_eq in Hr'. injection Hr' as <-.
        inv_bind_as H_2_2_2 r3 s3. apply bioWrite_Done in H_2_2_2_1 as (d0 & E & ->).
        injection E as <-. apply ret_Done in H_2_2_2_2 as [_ <-].
        exists ino, d, fl. auto.
      * destruct Hr' as [_ Hr']. rewrite lookup_insert_eq in Hr'. discriminate.
Qed.

(** X11: a returning write stays inside its own file: the directory and
    every other inode are unchanged, and so is every disk block that was
    neither in the chain of the written file nor on the free list. *)
Theorem X11_write_leaves_other_files fd numb buf st r st' i :
  bfsFdToInum fd st = Done i st ->
  fsWrite fd numb buf st = Done r st' ->
  dir st' = dir st /\
  (forall j, j <> i -> inodes st' !! j = inodes st !! j) /\
  (forall d, d ∉ freelist st -> (forall f, chainOf i st !! f <> Some d) ->
     disk st' !! d = disk st !! d).
Proof.
  intros Hfd Hw.
  apply fsWrite_Done in Hw as (Hnb & i' & c' & dbn & s1 & Hfd' & Ht' & Hm & Hl).
  rewrite Hfd in Hfd'. injection Hfd' as <-.
  set (Q := fun s =>
    dir s = dir st /\
    (forall j, j <> i -> inodes s !! j = inodes st !! j) /\
    (forall d, d ∈ freelist s -> d ∈ freelist st) /\
    (forall f d, chainOf i s !! f = Some d ->
       d ∈ freelist st \/ exists f', chainOf i st !! f' = Some d) /\
    (forall d, d ∉ freelist st -> (forall f, chainOf i st !! f <> Some d) ->
       disk s !! d = disk st !! d)).
  assert (Hstep : forall fbn s dbn0 s', mapOrAlloc i fbn s = Done dbn0 s' -> Q s ->
            Q s' /\ exists d, dbn0 = Val d /\ chainOf i s' !! fbn = Some d).
  { intros fbn s dbn0 s' Hm0 (Hdir & Hoth & Hfl & Hrng & Hdk).
    split; [|eapply mapOrAlloc_mapped; exact Hm0].
    apply mapOrAlloc_state in Hm0 as [-> | (ino & d & fl & Hi & Hc & Hfree & ->)].
    { repeat split; assumption. }
    assert (Hd : d ∈ freelist st) by (apply Hfl; rewrite Hfree; left).
    repeat split; simpl.
    - exact Hdir.
    - intros j Hj. rewrite lookup_insert_ne by auto. auto.
    - intros d' Hd'. apply Hfl. rewrite Hfree. right. exact Hd'.
    - intros f d'. unfold chainOf. simpl. rewrite lookup_insert_eq. simpl.
      intros Hf. destruct (decide (f = fbn)) as [->|Hne].
      + rewrite lookup_insert_eq in Hf. injection Hf as <-. left. exact Hd.
      + rewrite lookup_insert_ne in Hf by auto.
        apply (Hrng f d'). unfold chainOf. rewrite Hi. exact Hf.
    - intros d' Hnf Hnc. rewrite lookup_insert_ne by (intros ->; contradiction).
      auto. }
  set (P := fun (nb cidx bidx fbn : Z) (dbn : rv) s =>
    Q s /\ exists d, dbn = Val d /\ chainOf i s !! fbn = Some d).
  assert (Hend : exists nb' cidx' bidx' fbn' dbn', nb' <= 0 /\ P nb' cidx' bidx' fbn' dbn' st').
  { eapply (fsWrite_loop_inv fd i _ P); [ | | exact Hl].
    - intros nb cidx bidx fbn dbn0 s wb d o dbn' s3 _
        ((Hdir & Hoth & Hfl & Hrng & Hdk) & d1 & Hd1 & Hch) _ _ Hdbn Hm3.
      rewrite Hdbn in Hd1. injection Hd1 as <-.
      apply (Hstep _ _ _ _ Hm3).
      repeat split; simpl; try assumption.
      intros d' Hnf Hnc. destruct (decide (d' = d)) as [->|Hne].
      + destruct (Hrng fbn d Hch) as [Hin | (f' & Hf')]; [contradiction|].
        destruct (Hnc f' Hf').
      + rewrite lookup_insert_ne by auto. auto.
    - apply (Hstep _ _ _ _ Hm). repeat split; auto. intros f d Hf. right. eauto. }
  destruct Hend as (nb' & cidx' & bidx' & fbn' & dbn' & _ & (Hdir & Hoth & _ & _ & Hdk) & _).
  repeat split; assumption.
Qed.

Lemma X11_write_leaves_other_files_witness :
  dir (after (fsWrite 0 600 (replicate 600 88)) openedAB) = dir openedAB /\
  (forall j, j <> 1 ->
     inodes (after (fsWrite 0 600 (replicate 600 88)) openedAB) !! j = inodes openedAB !! j) /\
  (forall d, d ∉ freelist openedAB -> (forall f, chainOf 1 openedAB !! f <> Some d) ->
     disk (after (fsWrite 0 600 (replicate 600 88)) openedAB) !! d = disk openedAB !! d).
Proof.
  apply (X11_write_leaves_other_files 0 600 (replicate 600 88) openedAB 0).
  - reflexivity.
  - vm_compute. reflexivity.
Defined.



Lemma bfsFdToInum_same_oft fd s s' i :
  g_oft s' = g_oft s -> bfsFdToInum fd s = Done i s -> bfsFdToInum fd s' = Done i s'.
Proof.
  intros Ho H. apply bfsFdToInum_Done in H as (_ & Hpos & e & L & I).
  unfold bfsFdToInum. destruct (Z.ltb_spec fd 0); [lia|].
  rewrite Ho, L, I. reflexivity.
Qed.

Lemma bfsRead_run i fbn s ino d b :
  inodes s !! i = Some ino -> chain ino !! fbn = Some d -> disk s !! d = Some b ->
  bfsRead i fbn s = Done b s.
Proof.
  intros Hi Hc Hd. unfold bfsRead, bfsFbnToDbn, bind. rewrite Hi, Hc, Hd. reflexivity.
Qed.

Lemma mapOrAlloc_run_mapped i fbn s ino d :
  inodes s !! i = Some ino -> chain ino !! fbn = Some d ->
  mapOrAlloc i fbn s = Done (Val d) s.
Proof.
  intros Hi Hc. unfold mapOrAlloc, bfsFbnToDbn, bind. rewrite Hi, Hc. reflexivity.
Qed.

Lemma mapOrAlloc_run_alloc i fbn s ino d fl :
  inodes s !! i = Some ino -> chain ino !! fbn = None -> freelist s = d :: fl ->
  mapOrAlloc i fbn s
  = Done (Val d)
      (mkBFS (g_oft s)
             (<[i := mkInode (isize ino + BYTESPERBLOCK) (<[fbn := d]> (chain ino))]>
                (inodes s))
             fl (<[d := zeroBlock]> (disk s)) (dir s)).
Proof.
  intros Hi Hc Hf. unfold mapOrAlloc, bfsFbnToDbn, bfsAllocBlock, bioWrite, bind, ret.
  rewrite Hi, Hc. simpl. rewrite Hi, Hf. simpl.
  rewrite lookup_insert_eq. simpl. rewrite lookup_insert_eq. reflexivity.
Qed.

(** The blocks a write of [nb] bytes from in-block offset [cidx] can take
    after its first one: one per block step. *)
Lemma blocks_needed_step cidx nb :
  0 < nb -> 0 <= cidx < BYTESPERBLOCK ->
  1 <= (cidx + nb + BYTESPERBLOCK - 1) / BYTESPERBLOCK /\
  (0 + (nb - blockCount cidx nb) + BYTESPERBLOCK - 1) / BYTESPERBLOCK
  <= (cidx + nb + BYTESPERBLOCK - 1) / BYTESPERBLOCK - 1.
Proof.
  intros Hn Hc.
  destruct (blockCount_range cidx nb Hn Hc) as (Hr1 & Hr2 & Hr3).
  unfold BYTESPERBLOCK in *.
  assert (H1 : 1 <= (cidx + nb + 512 - 1) / 512)
    by (apply Z.div_le_lower_bound; lia).
  split; [exact H1|].
  destruct Hr3 as [-> | ->].
  - replace (0 + (nb - nb) + 512 - 1) with 511 by lia.
    rewrite Z.div_small by lia. lia.
  - replace (0 + (nb - (512 - cidx)) + 512 - 1) with (cidx + nb + 512 - 1 + (-1) * 512) by lia.
    rewrite Z.div_add by lia. lia.
Qed.

(** The loop of [fsWrite] returns whenever the descriptor is bound, the
    current block is mapped, every mapped block is on the device and the free
    list holds a block per block step. *)
Lemma fsWrite_loop_total fd i tb fuel :
  forall nb cidx bidx fbn d s ino,
    (Z.to_nat nb <= fuel)%nat ->
    0 <= cidx < BYTESPERBLOCK ->
    bfsFdToInum fd s = Done i s ->
    inodes s !! i = Some ino ->
    chain ino !! fbn = Some d ->
    (forall f d', chain ino !! f = Some d' -> is_Some (disk s !! d')) ->
    (cidx + nb + BYTESPERBLOCK - 1) / BYTESPERBLOCK <= Z.of_nat (length (freelist s)) ->
    exists s', fsWrite_loop fuel fd i tb nb cidx bidx fbn (Val d) s = Done tt s'.
Proof.
  induction fuel as [|fuel IH]; intros nb cidx bidx fbn d s ino Hfuel Hc Hfd Hi Hch Hrd Hbud.
  { simpl. destruct (Z.leb_spec nb 0); [eexists; reflexivity | lia]. }
  simpl. destruct (Z.leb_spec nb 0) as [Hn|Hn]; [eexists; reflexivity|].
  destruct (Hrd _ _ Hch) as [wb Hwb].
  rewrite (bind_eq_Done _ _ _ _ _ (bfsRead_run _ _ _ _ _ _ Hi Hch Hwb)).
  destruct (Z.ltb_spec cidx 0) as [?|_]; [lia|].
  destruct (blockCount_range cidx nb Hn Hc) as (Hr1 & Hr2 & Hr3).
  destruct (blocks_needed_step cidx nb Hn Hc) as (Hb1 & Hb2).
  set (wc := blockCount cidx nb) in *.
  set (s1 := set_disk (<[d := memcpy wb cidx tb bidx wc]> (disk s)) s).
  assert (Hbw : bioWrite (Val d) (memcpy wb cidx tb bidx wc) s = Done 0 s1) by reflexivity.
  rewrite (bind_eq_Done _ _ _ _ _ Hbw).
  destruct (bfsFdToInum_Done _ _ _ _ Hfd) as (_ & Hfd0 & e & L & I).
  assert (Hfd1 : bfsFdToInum fd s1 = Done i s1).
  { unfold bfsFdToInum. destruct (Z.ltb_spec fd 0); [lia|].
    simpl. rewrite L, I. reflexivity. }
  destruct (findSlot_bound _ _ _ L) as [k F]. rewrite I in F.
  destruct (findSlot_Some _ _ _ F) as (ek & Lk & Ik).
  assert (Hsz1 : fsSize fd s1 = Done (isize ino) s1).
  { unfold fsSize. rewrite (bind_eq_Done _ _ _ _ _ Hfd1).
    unfold bfsGetSize. simpl. rewrite Hi. reflexivity. }
  pose proof (fsSeek_run fd wc SEEK_CUR s1 i k ek (isize ino)
                ltac:(lia) ltac:(auto) Hfd1 F Lk Hsz1) as Hsk.
  set (s2 := set_oft (<[k := Some (mkOFTE (inum ek)
                 (seekTarget SEEK_CUR wc (curs ek) (isize ino)) (refs ek))]> (g_oft s1)) s1) in *.
  rewrite (bind_eq_Done _ _ _ _ _ Hsk).
  assert (Hfd2 : bfsFdToInum fd s2 = Done i s2).
  { unfold s2. rewrite bfsFdToInum_set_oft by exact Lk. rewrite Hfd1. reflexivity. }
  assert (Hi2 : inodes s2 !! i = Some ino) by exact Hi.
  assert (Hrd2 : forall f d', chain ino !! f = Some d' -> is_Some (disk s2 !! d')).
  { intros f d' Hf. simpl. destruct (decide (d' = d)) as [->|Hne].
    - rewrite lookup_insert_eq. eauto.
    - rewrite lookup_insert_ne by auto. eauto. }
  assert (Hfuel' : (Z.to_nat (nb - wc) <= fuel)%nat) by lia.
  assert (Hc0 : 0 <= 0 < BYTESPERBLOCK) by (unfold BYTESPERBLOCK; lia).
  destruct (chain ino !! wrap32 (fbn + 1)) as [d'|] eqn:Hnext.
  - rewrite (bind_eq_Done _ _ _ _ _ (mapOrAlloc_run_mapped _ _ _ _ _ Hi2 Hnext)).
    apply (IH (nb - wc) 0 (bidx + wc) (wrap32 (fbn + 1)) d' s2 ino
              Hfuel' Hc0 Hfd2 Hi2 Hnext Hrd2).
    simpl. lia.
  - assert (Hfree : exists d' fl, freelist s = d' :: fl).
    { destruct (freelist s) as [|d' fl]; [simpl in Hbud; lia | eauto]. }
    destruct Hfree as (d' & fl & Hfl).
    assert (Hfl2 : freelist s2 = d' :: fl) by exact Hfl.
    rewrite (bind_eq_Done _ _ _ _ _ (mapOrAlloc_run_alloc _ _ _ _ _ _ Hi2 Hnext Hfl2)).
    set (ino' := mkInode (isize ino + BYTESPERBLOCK) (<[wrap32 (fbn + 1) := d']> (chain ino))).
    apply (IH (nb - wc) 0 (bidx + wc) (wrap32 (fbn + 1)) d' _ ino' Hfuel' Hc0).
    + apply (bfsFdToInum_same_oft fd s2); [reflexivity | exact Hfd2].
    + simpl. apply lookup_insert_eq.
    + simpl. apply lookup_insert_eq.
    + intros f d'' Hf. simpl in *.
      destruct (decide (d'' = d')) as [->|Hne]; [rewrite lookup_insert_eq; eauto|].
      rewrite lookup_insert_ne by auto.
      destruct (decide (f = wrap32 (fbn + 1))) as [->|Hnf].
      * rewrite lookup_insert_eq in Hf. congruence.
      * rewrite lookup_insert_ne in Hf by auto. apply (Hrd2 f d'' Hf).
    + simpl. rewrite Hfl in Hbud. simpl in Hbud. lia.
Qed.

Lemma mapOrAlloc_total i fbn s ino :
  inodes s !! i = Some ino ->
  (forall f d, chain ino !! f = Some d -> is_Some (disk s !! d)) ->
  1 <= Z.of_nat (length (freelist s)) ->
  exists d s' ino',
    mapOrAlloc i fbn s = Done (Val d) s' /\
    inodes s' !! i = Some ino' /\ chain ino' !! fbn = Some d /\
    (forall f d', chain ino' !! f = Some d' -> is_Some (disk s' !! d')) /\
    g_oft s' = g_oft s /\
    Z.of_nat (length (freelist s)) - 1 <= Z.of_nat (length (freelist s')).
Proof.
  intros Hi Hrd Hfree.
  destruct (chain ino !! fbn) as [d|] eqn:Hc.
  - exists d, s, ino. rewrite (mapOrAlloc_run_mapped _ _ _ _ _ Hi Hc).
    repeat split; try assumption; try reflexivity. lia.
  - destruct (freelist s) as [|d fl] eqn:Hfl; [simpl in Hfree; lia|].
    exists d. eexists. eexists.
    rewrite (mapOrAlloc_run_alloc _ _ _ _ _ _ Hi Hc Hfl).
    split; [reflexivity|]. simpl.
    split; [apply lookup_insert_eq|]. simpl.
    split; [apply lookup_insert_eq|].
    split; [|split; [reflexivity | lia]].
    intros f d' Hf.
    destruct (decide (d' = d)) as [->|Hne]; [rewrite lookup_insert_eq; eauto|].
    rewrite lookup_insert_ne by auto.
    destruct (decide (f = fbn)) as [->|Hnf].
    + rewrite lookup_insert_eq in Hf. congruence.
    + rewrite lookup_insert_ne in Hf by auto. eauto.
Qed.

(** X13: a write returns 0 whenever it has what it needs: a bound
    descriptor with a non-negative cursor, a buffer of at least [numb] bytes,
    every mapped block of the file on the device, and on the free list one
    block for the cursor's block plus one per block step. *)
Theorem X13_write_returns_with_enough_blocks fd numb buf st i c sz :
  bfsFdToInum fd st = Done i st ->
  fsTell fd st = Done c st ->
  sizeOf i st = Some sz ->
  0 <= c ->
  0 <= numb <= Z.of_nat (length buf) ->
  (forall f d, chainOf i st !! f = Some d -> is_Some (disk st !! d)) ->
  (c mod BYTESPERBLOCK + numb + BYTESPERBLOCK - 1) / BYTESPERBLOCK + 1
  <= Z.of_nat (length (freelist st)) ->
  exists st', fsWrite fd numb buf st = Done 0 st'.
Proof.
  intros Hfd Ht Hsz Hc Hnb Hrd Hbud.
  unfold sizeOf in Hsz. destruct (inodes st !! i) as [ino|] eqn:Hi; [|discriminate].
  rewrite (chainOf_inode _ _ _ Hi) in Hrd.
  destruct (cursor_split c Hc) as (Eq & Er & Hr & Hdm).
  assert (Hneed : 0 <= (c mod BYTESPERBLOCK + numb + BYTESPERBLOCK - 1) / BYTESPERBLOCK).
  { apply Z.div_pos; unfold BYTESPERBLOCK in *; lia. }
  destruct (mapOrAlloc_total i (c / BYTESPERBLOCK) st ino Hi Hrd ltac:(lia))
    as (d & s1 & ino1 & Hm & Hi1 & Hc1 & Hrd1 & Ho1 & Hfl1).
  destruct (fsWrite_loop_total fd i (take (Z.to_nat numb) buf) (Z.to_nat numb)
              numb (c mod BYTESPERBLOCK) 0 (c / BYTESPERBLOCK) d s1 ino1
              ltac:(lia) Hr
              (bfsFdToInum_same_oft fd st s1 i Ho1 Hfd) Hi1 Hc1 Hrd1 ltac:(lia))
    as (s' & Hloop).
  exists s'. unfold fsWrite.
  destruct (Z.ltb_spec numb 0) as [?|_]; [lia|].
  destruct (Z.ltb_spec (Z.of_nat (length buf)) numb) as [?|_]; [lia|].
  simpl. unfold fsTell in Ht.
  rewrite (bind_eq_Done _ _ _ _ _ Hfd), (bind_eq_Done _ _ _ _ _ Ht).
  rewrite Eq, Er.
  rewrite (bind_eq_Done _ _ _ _ _ Hm), (bind_eq_Done _ _ _ _ _ Hloop).
  reflexivity.
Qed.

Lemma X13_write_returns_with_enough_blocks_witness :
  exists st', fsWrite 0 600 (replicate 600 88) seeked1546 = Done 0 st'.
Proof.
  apply (X13_write_returns_with_enough_blocks 0 600 (replicate 600 88) seeked1546 1 1546 0).
  - reflexivity.
  - reflexivity.
  - reflexivity.
  - lia.
  - rewrite length_replicate. lia.
  - intros f d H. vm_compute in H. discriminate.
  - vm_compute. discriminate.
Defined.

(** ** fsRead: what a returning read does *)

Lemma countZeros_nonneg l : 0 <= countZeros l.
Proof.
  induction l as [|b l IH]; simpl; [lia|]. destruct (b =? 0); lia.
Qed.

(** The loop of [fsRead] returns early with EBADREAD only. *)
Lemma fsRead_loop_return fuel fd i : forall numb cursorIdx fbn tempBuf st r st',
  fsRead_loop fuel fd i numb cursorIdx fbn tempBuf st = Done (ReadReturn r) st' ->
  r = Err EBADREAD.
Proof.
  induction fuel as [|fuel IH]; intros numb cursorIdx fbn tempBuf st r st'; simpl.
  - destruct (numb <=? 0); [|discriminate].
    intros H. apply ret_Done in H as [E _]. discriminate.
  - destruct (numb <=? 0).
    { intros H. apply ret_Done in H as [E _]. discriminate. }
    intros H. inv_bind_as H rb s0.
    destruct ((if 0 <? cursorIdx then 0 else cursorIdx) <? 0); [discriminate|].
    inv_bind_as H_2 sz s1.
    destruct (sz <? wrap32 (fbn * BYTESPERBLOCK)).
    + apply ret_Done in H_2_2 as [E _]. injection E as <-. reflexivity.
    + eapply IH. exact H_2_2.
Qed.

(** An invariant rule for the loop of [fsRead]: a predicate on the loop
    variables and the staged bytes that every turn preserves holds, with
    [numb <= 0], when the loop falls through. *)
Lemma fsRead_loop_inv fd i st (P : Z -> Z -> Z -> list Z -> Prop) :
  (forall nb cidx fbn tb rb,
     0 < nb -> P nb cidx fbn tb -> bfsRead i fbn st = Done rb st -> 0 <= cidx ->
     P (nb - blockCount cidx nb) 0 (wrap32 (fbn + 1))
       (tb ++ take (Z.to_nat (blockCount cidx nb)) rb)) ->
  forall fuel nb cidx fbn tb fbn' tb' st',
    P nb cidx fbn tb ->
    fsRead_loop fuel fd i nb cidx fbn tb st = Done (ReadFallthrough fbn' tb') st' ->
    exists nb' cidx', nb' <= 0 /\ P nb' cidx' fbn' tb'.
Proof.
  intros Step. induction fuel as [|fuel IH]; intros nb cidx fbn tb fbn' tb' st' HP H.
  - simpl in H. destruct (Z.leb_spec nb 0) as [Hn|Hn]; [|discriminate].
    apply ret_Done in H as [E _]. injection E as <- <-. eauto.
  - simpl in H. destruct (Z.leb_spec nb 0) as [Hn|Hn].
    { apply ret_Done in H as [E _]. injection E as <- <-. eauto. }
    inv_bind_as H rb s0. pose proof H_1 as Hrd.
    apply bfsRead_Done in H_1 as [-> _].
    assert (Hci : ((if 0 <? cidx then 0 else cidx) <? 0) = false ->
                  0 <= cidx /\ (if 0 <? cidx then 0 else cidx) = 0).
    { destruct (Z.ltb_spec 0 cidx); [lia|].
      destruct (Z.ltb_spec cidx 0); [discriminate | lia]. }
    destruct ((if 0 <? cidx then 0 else cidx) <? 0) eqn:Eg; [discriminate|].
    destruct (Hci eq_refl) as (Hc0 & Hz). rewrite Hz in H_2.
    inv_bind_as H_2 sz s1. apply fsSize_Done in H_2_1 as ->.
    destruct (sz <? wrap32 (fbn * BYTESPERBLOCK)).
    + apply ret_Done in H_2_2 as [E _]. discriminate.
    + simpl in H_2_2. rewrite drop_0 in H_2_2.
      eapply IH; [|exact H_2_2]. eapply Step; eauto.
Qed.

(** What the loop of [fsRead] has staged when it falls through, for a file
    with whole blocks: as many bytes as were requested, byte [k] being the
    byte of the file at [readOffset c k]; and the last block read is the block
    of the last requested offset. *)
Lemma fsRead_loop_staged fd i st c numb fuel fbn' tb st' :
  blocksWhole i st -> 0 <= c -> c + numb <= INT_MAX -> 0 < numb ->
  fsRead_loop fuel fd i numb (c mod BYTESPERBLOCK) (c / BYTESPERBLOCK) [] st
  = Done (ReadFallthrough fbn' tb) st' ->
  Z.of_nat (length tb) = numb /\
  (forall k, 0 <= k < numb -> tb !! Z.to_nat k = byteAt i (readOffset c k) st) /\
  fbn' - 1 = (c + numb - 1) / BYTESPERBLOCK.
Proof.
  intros Hwhole Hc Hmax Hn Hl.
  destruct (cursor_split c Hc) as (_ & _ & Hr & Hdm).
  set (P := fun nb cidx fbn (tb : list Z) =>
    writePos c numb nb cidx (Z.of_nat (length tb)) fbn /\
    (0 < nb -> (cidx = c mod BYTESPERBLOCK /\ length tb = O) \/
               (cidx = 0 /\ BYTESPERBLOCK - c mod BYTESPERBLOCK <= Z.of_nat (length tb))) /\
    (forall k, 0 <= k < Z.of_nat (length tb) ->
       tb !! Z.to_nat k = byteAt i (readOffset c k) st) /\
    (0 < Z.of_nat (length tb) ->
       (fbn - 1) * BYTESPERBLOCK < c + Z.of_nat (length tb) <= fbn * BYTESPERBLOCK)).
  assert (Hend : exists nb' cidx', nb' <= 0 /\ P nb' cidx' fbn' tb).
  { eapply (fsRead_loop_inv fd i st P); [ | | exact Hl].
    - intros nb cidx fbn tb0 rb Hp (Hpos & Hfirst & Hcont & Hlast) Hrd _.
      destruct (writePos_step _ _ _ _ _ _ Hc Hmax Hp Hpos) as (Hw32 & _ & _ & Hpos').
      rewrite Hw32.
      apply bfsRead_chainOf in Hrd as (d & Hch & Hd).
      destruct (Hwhole _ _ Hch) as (blk & Hblk & Hlen).
      rewrite Hd in Hblk. injection Hblk as <-.
      destruct Hpos as (Hci & Hb & Hnb0 & Hsum & Hposeq). specialize (Hposeq Hp).
      destruct (blockCount_range cidx nb Hp Hci) as (Hr1 & Hr2 & Hr3).
      set (rc := blockCount cidx nb) in *.
      assert (Hlen' : Z.of_nat (length (tb0 ++ take (Z.to_nat rc) rb))
                      = Z.of_nat (length tb0) + rc).
      { rewrite length_app, length_take. unfold BYTESPERBLOCK in *. lia. }
      unfold P. rewrite Hlen'. split; [exact Hpos'|].
      specialize (Hfirst Hp).
      split; [|split].
      + intros Hmore. right. split; [reflexivity|].
        destruct Hr3 as [Hr3|Hr3]; [lia|].
        destruct Hfirst as [(-> & Hz) | (-> & Hge)]; lia.
      + intros k Hk.
        destruct (decide (k < Z.of_nat (length tb0))) as [Hold|Hnew].
        * rewrite lookup_app_l by lia. apply Hcont. lia.
        * rewrite lookup_app_r by lia.
          rewrite lookup_take_lt by lia.
          replace (Z.to_nat k - length tb0)%nat
            with (Z.to_nat (k - Z.of_nat (length tb0))) by lia.
          rewrite <- (byteAt_block i st fbn d rb) by (try assumption; lia).
          f_equal. unfold readOffset.
          destruct Hfirst as [(-> & Hz) | (-> & Hge)].
          -- destruct (Z.ltb_spec k (BYTESPERBLOCK - c mod BYTESPERBLOCK)); lia.
          -- destruct (Z.ltb_spec k (BYTESPERBLOCK - c mod BYTESPERBLOCK)); lia.
      + intros _. unfold BYTESPERBLOCK in *. lia.
    - unfold P. simpl. split; [unfold writePos; repeat split; lia|].
      split; [intros _; left; auto|]. split; [intros k Hk; lia | lia]. }
  destruct Hend as (nb' & cidx' & Hle & (_ & Hb & Hnb' & Hsum & _) & _ & Hcont & Hlast).
  assert (Hlen : Z.of_nat (length tb) = numb) by lia.
  split; [exact Hlen|]. split; [rewrite <- Hlen; exact Hcont|].
  specialize (Hlast ltac:(lia)). rewrite Hlen in Hlast.
  unfold BYTESPERBLOCK in *. apply Z.div_unique with (c + numb - 1 - (fbn' - 1) * 512).
  - left. lia.
  - lia.
Qed.

(** The parts of a [fsRead] that returns a byte count: the block loop falls
    through with the staged bytes, the count is the request or the request
    less the trailing zero bytes of the last block read, the first [n]
    staged bytes are copied out and the cursor is moved by [n]. *)
Lemma fsRead_Done fd numb buf st n buf' st' :
  fsRead fd numb buf st = Done (Val n, buf') st' ->
  0 < numb /\ 0 <= n <= numb /\ n <= Z.of_nat (length buf) /\
  exists i c fbn' tb,
    bfsFdToInum fd st = Done i st /\ bfsTell fd st = Done c st /\
    fsRead_loop (Z.to_nat numb) fd i numb (Z.rem c BYTESPERBLOCK)
      (Z.quot c BYTESPERBLOCK) [] st = Done (ReadFallthrough fbn' tb) st /\
    ((exists rest, tb = 0 :: rest /\ n = numb) \/
     (exists b0 rest countBuffer, tb = b0 :: rest /\ b0 <> 0 /\
        bfsRead i (fbn' - 1) st = Done countBuffer st /\
        n = numb - emptyCountOf countBuffer)) /\
    buf' = memcpy buf 0 tb 0 n /\
    fsSeek fd n SEEK_CUR st = Done 0 st'.
Proof.
  unfold fsRead. destruct (Z.leb_spec numb 0) as [?|Hn]; [discriminate|].
  intros H. inv_bind_as H i s0. pose proof H_1 as Hfd.
  apply bfsFdToInum_Done in H_1 as [-> _].
  inv_bind_as H_2 c s1. pose proof H_2_1 as Ht.
  apply bfsTell_Done in H_2_1 as [-> _].
  inv_bind_as H_2_2 ex s2. pose proof H_2_2_1 as Hloop.
  apply fsRead_loop_pure in H_2_2_1 as ->.
  destruct ex as [r0 | fbn' tb].
  { apply fsRead_loop_return in Hloop as ->.
    apply ret_Done in H_2_2_2 as [E _]. discriminate. }
  inv_bind_as H_2_2_2 total s3.
  assert (Htot : s3 = st /\ total <= numb /\
            ((exists rest, tb = 0 :: rest /\ total = numb) \/
             (exists b0 rest countBuffer, tb = b0 :: rest /\ b0 <> 0 /\
                bfsRead i (fbn' - 1) st = Done countBuffer st /\
                total = numb - emptyCountOf countBuffer))).
  { destruct tb as [|b0 rest]; [discriminate|].
    destruct (Z.eqb_spec b0 0) as [->|Hb0].
    - apply ret_Done in H_2_2_2_1 as [<- <-].
      split; [reflexivity|]. split; [lia|]. left. eauto.
    - inv_bind_as H_2_2_2_1 countBuffer s4. pose proof H_2_2_2_1_1 as Hcb.
      apply bfsRead_Done in H_2_2_2_1_1 as [-> _].
      apply ret_Done in H_2_2_2_1_2 as [<- <-].
      split; [reflexivity|].
      pose proof (countZeros_nonneg (rev countBuffer)). unfold emptyCountOf.
      split; [lia|]. right. exists b0, rest, countBuffer. auto. }
  destruct Htot as (-> & Hle & Hcase).
  destruct (Z.ltb_spec total 0) as [?|Hpos]; [discriminate|].
  destruct (Z.ltb_spec (Z.of_nat (length buf)) total) as [?|Hlen]; [discriminate|].
  simpl in H_2_2_2_2. inv_bind_as H_2_2_2_2 r1 s5. pose proof H_2_2_2_2_1 as Hsk.
  apply fsSeek_Done in H_2_2_2_2_1 as (-> & _).
  apply ret_Done in H_2_2_2_2_2 as [E <-]. injection E as <- <-.
  split; [exact Hn|]. split; [lia|]. split; [exact Hlen|].
  exists i, c, fbn', tb. auto 10.
Qed.

(** X14: a returning read never writes to the file system: inode table,
    free list, device and directory are as before, and every descriptor is
    bound to the inode it was bound to. *)
Theorem X14_read_changes_only_cursor fd numb buf st n buf' st' :
  fsRead fd numb buf st = Done (Val n, buf') st' ->
  inodes st' = inodes st /\ freelist st' = freelist st /\
  disk st' = disk st /\ dir st' = dir st /\
  forall fd2 i2, bfsFdToInum fd2 st = Done i2 st -> bfsFdToInum fd2 st' = Done i2 st'.
Proof.
  intros H. apply fsRead_Done in H
    as (_ & _ & _ & i & c & fbn' & tb & _ & _ & _ & _ & _ & Hsk).
  apply fsSeek_Done in Hsk as (_ & _ & i0 & k & e & c' & _ & _ & L & ->).
  simpl. repeat split; try reflexivity.
  intros fd2 i2 H2. rewrite bfsFdToInum_set_oft by exact L. rewrite H2. reflexivity.
Qed.

Lemma X14_read_changes_only_cursor_witness :
  inodes (after (fsRead 0 300 (replicate 300 7)) written300) = inodes written300 /\
  freelist (after (fsRead 0 300 (replicate 300 7)) written300) = freelist written300 /\
  disk (after (fsRead 0 300 (replicate 300 7)) written300) = disk written300 /\
  dir (after (fsRead 0 300 (replicate 300 7)) written300) = dir written300 /\
  forall fd2 i2, bfsFdToInum fd2 written300 = Done i2 written300 ->
    bfsFdToInum fd2 (after (fsRead 0 300 (replicate 300 7)) written300)
    = Done i2 (after (fsRead 0 300 (replicate 300 7)) written300).
Proof.
  apply (X14_read_changes_only_cursor 0 300 (replicate 300 7) written300 88
           (replicate 88 88 ++ replicate 212 7)).
  vm_compute. reflexivity.
Defined.

(** X15: a returning read moves the cursor forward by exactly the count it
    returns: with the cursor at [c] before and [n] returned, [fsTell] gives
    [c + n] after. *)
Theorem X15_read_advances_cursor_by_count fd numb buf st n buf' st' c :
  fsTell fd st = Done c st ->
  - 2^31 <= c -> c + numb <= INT_MAX ->
  fsRead fd numb buf st = Done (Val n, buf') st' ->
  fsTell fd st' = Done (c + n) st'.
Proof.
  intros Ht Hc Hmax H. unfold fsTell in *.
  apply fsRead_Done in H
    as (_ & Hn & _ & i & c0 & fbn' & tb & _ & _ & _ & _ & _ & Hsk).
  apply (tell_after_seek_CUR fd n st 0 st' c Ht) in Hsk.
  rewrite wrap32_id in Hsk by (unfold INT_MAX in *; lia). exact Hsk.
Qed.

Lemma X15_read_advances_cursor_by_count_witness :
  fsTell 0 (after (fsRead 0 300 (replicate 300 7)) written300)
  = Done (0 + 88) (after (fsRead 0 300 (replicate 300 7)) written300).
Proof.
  apply (X15_read_advances_cursor_by_count 0 300 (replicate 300 7) written300 88
           (replicate 88 88 ++ replicate 212 7)).
  - reflexivity.
  - lia.
  - unfold INT_MAX. lia.
  - vm_compute. reflexivity.
Defined.

(** X16: a returning read stays inside the count it returns: on a file
    with whole blocks the count is between 0 and the request, the caller's
    buffer keeps its length, and every byte of it from the returned count on
    is untouched. *)
Theorem X16_read_writes_only_counted_bytes fd numb buf st n buf' st' i c :
  blocksWhole i st ->
  bfsFdToInum fd st = Done i st ->
  fsTell fd st = Done c st ->
  0 <= c -> c + numb <= INT_MAX ->
  fsRead fd numb buf st = Done (Val n, buf') st' ->
  0 <= n <= numb /\ length buf' = length buf /\
  drop (Z.to_nat n) buf' = drop (Z.to_nat n) buf.
Proof.
  intros Hwhole Hfd Ht Hc Hmax H. unfold fsTell in Ht.
  apply fsRead_Done in H
    as (Hpos & Hn & Hb & i' & c' & fbn' & tb & Hfd' & Ht' & Hloop & _ & -> & _).
  rewrite Hfd in Hfd'. injection Hfd' as <-. rewrite Ht in Ht'. injection Ht' as <-.
  destruct (cursor_split c Hc) as (Eq & Er & _). rewrite Eq, Er in Hloop.
  apply (fsRead_loop_staged fd i st c numb) in Hloop as (Hlen & _); try assumption.
  split; [exact Hn|]. split.
  - apply memcpy_length; lia.
  - apply list_eq. intros j. rewrite !lookup_drop.
    replace (Z.to_nat n + j)%nat with (Z.to_nat (n + Z.of_nat j)) by lia.
    apply memcpy_lookup_after; lia.
Qed.

Lemma written300_whole : blocksWhole 1 written300.
Proof. apply written300_sound. Qed.

Lemma X16_read_writes_only_counted_bytes_witness :
  0 <= 88 <= 300 /\
  length (replicate 88 88 ++ replicate 212 7) = length (replicate 300 7) /\
  drop (Z.to_nat 88) (replicate 88 88 ++ replicate 212 7)
  = drop (Z.to_nat 88) (replicate 300 7).
Proof.
  apply (X16_read_writes_only_counted_bytes 0 300 (replicate 300 7) written300 88
           (replicate 88 88 ++ replicate 212 7)
           (after (fsRead 0 300 (replicate 300 7)) written300) 1 0).
  - exact written300_whole.
  - reflexivity.
  - reflexivity.
  - lia.
  - unfold INT_MAX. lia.
  - vm_compute. reflexivity.
Defined.

(** X17: what a returning read delivers, on a file with whole blocks: byte
    [k] of the caller's buffer, for [k] below the returned count, is the byte
    of the file at offset [readOffset c k].  For a block-aligned cursor that
    is offset [c + k]; for a cursor inside a block the bytes taken from that
    first block are those at the start of the block, not those at the
    cursor. *)
Theorem X17_read_delivers_file_bytes fd numb buf st n buf' st' i c :
  blocksWhole i st ->
  bfsFdToInum fd st = Done i st ->
  fsTell fd st = Done c st ->
  0 <= c -> c + numb <= INT_MAX ->
  fsRead fd numb buf st = Done (Val n, buf') st' ->
  forall k, 0 <= k < n -> buf' !! Z.to_nat k = byteAt i (readOffset c k) st.
Proof.
  intros Hwhole Hfd Ht Hc Hmax H k Hk. unfold fsTell in Ht.
  apply fsRead_Done in H
    as (Hpos & Hn & Hb & i' & c' & fbn' & tb & Hfd' & Ht' & Hloop & _ & -> & _).
  rewrite Hfd in Hfd'. injection Hfd' as <-. rewrite Ht in Ht'. injection Ht' as <-.
  destruct (cursor_split c Hc) as (Eq & Er & _). rewrite Eq, Er in Hloop.
  apply (fsRead_loop_staged fd i st c numb) in Hloop as (Hlen & Hcont & _); try assumption.
  rewrite memcpy_lookup_in by lia.
  replace (0 + (k - 0)) with k by lia. apply Hcont. lia.
Qed.

Lemma X17_read_delivers_file_bytes_witness :
  (replicate 88 88 ++ replicate 212 7) !! Z.to_nat 87 = byteAt 1 (readOffset 0 87) written300.
Proof.
  refine (X17_read_delivers_file_bytes 0 300 (replicate 300 7) written300 88
            (replicate 88 88 ++ replicate 212 7)
            (after (fsRead 0 300 (replicate 300 7)) written300) 1 0 _ _ _ _ _ _ 87 _).
  - exact written300_whole.
  - reflexivity.
  - reflexivity.
  - lia.
  - unfold INT_MAX. lia.
  - vm_compute. reflexivity.
  - lia.
Defined.

(** ** Write, seek back, read *)

(** An absolute seek stores the offset itself. *)
Lemma fsSeek_SET_Done fd offset st r st' :
  fsSeek fd offset SEEK_SET st = Done r st' ->
  0 <= offset /\
  exists i k e,
    bfsFdToInum fd st = Done i st /\ findSlot i (g_oft st) = Some k /\
    g_oft st !! k = Some (Some e) /\
    st' = set_oft (<[k := Some (mkOFTE (inum e) offset (refs e))]> (g_oft st)) st.
Proof.
  unfold fsSeek. destruct (Z.ltb_spec offset 0) as [?|Ho]; [discriminate|].
  intros H. inv_bind_as H i s0. pose proof H_1 as Hfd.
  apply bfsFdToInum_Done in H_1 as [-> _].
  inv_bind_as H_2 ofte s1.
  apply bfsFindOFTE_Done in H_2_1 as [-> (k & -> & F)].
  destruct (findSlot_Some _ _ _ F) as (e & L & I).
  simpl in H_2_2. inv_bind_as H_2_2 u s2. apply ret_Done in H_2_2_2 as [_ <-].
  apply setCurs_Done in H_2_2_1 as (e0 & L0 & ->).
  rewrite Nat2Z.id in *. rewrite L in L0. injection L0 as <-.
  split; [exact Ho|]. exists i, k, e. auto.
Qed.

(** A returning write leaves every descriptor bound as it was. *)
Lemma fsWrite_keeps_binding fd numb buf st r st' fd2 i2 :
  fsWrite fd numb buf st = Done r st' ->
  bfsFdToInum fd2 st = Done i2 st -> bfsFdToInum fd2 st' = Done i2 st'.
Proof.
  intros Hw H2.
  apply fsWrite_Done in Hw as (_ & i & c & dbn & s1 & _ & _ & Hm & Hl).
  set (P := fun (nb cidx bidx fbn : Z) (dbn : rv) s => bfsFdToInum fd2 s = Done i2 s).
  assert (Hend : exists nb' cidx' bidx' fbn' dbn', nb' <= 0 /\ P nb' cidx' bidx' fbn' dbn' st').
  { eapply (fsWrite_loop_inv_seek fd i _ P); [ | | exact Hl].
    - intros nb cidx bidx fbn dbn0 s wb d s2 dbn' s3 _ HP _ _ _ Hsk Hm3. unfold P in *.
      set (sd := set_disk (<[d := memcpy wb cidx _ bidx (blockCount cidx nb)]> (disk s)) s) in *.
      assert (HPd : bfsFdToInum fd2 sd = Done i2 sd)
        by (apply (bfsFdToInum_same_oft fd2 s sd i2 eq_refl HP)).
      apply fsSeek_Done in Hsk as (_ & _ & i0 & k & e & c' & _ & _ & L & ->).
      apply (bfsFdToInum_same_oft fd2 _ s3 i2 (mapOrAlloc_oft _ _ _ _ _ Hm3)).
      rewrite bfsFdToInum_set_oft by exact L.
      rewrite HPd. reflexivity.
    - unfold P. apply (bfsFdToInum_same_oft fd2 st s1 i2 (mapOrAlloc_oft _ _ _ _ _ Hm) H2). }
  destruct Hend as (? & ? & ? & ? & ? & _ & HP). exact HP.
Qed.

(** For a block-aligned cursor the offsets a read takes its bytes from are
    the offsets from the cursor on. *)
Lemma readOffset_aligned c k : c mod BYTESPERBLOCK = 0 -> readOffset c k = c + k.
Proof.
  intros Ha. unfold readOffset. rewrite Ha.
  destruct (k <? BYTESPERBLOCK - 0); lia.
Qed.

(** X18: writing at a block-aligned cursor, seeking back to it and reading
    gives back what was written, as far as the count the read returns: byte
    [k] of the read buffer, for [k] below that count, is byte [k] of the
    buffer written. *)
Theorem X18_aligned_write_seek_read fd numb wbuf st r s1 r2 s2 rbuf n rbuf' s3 i c :
  fileSound i st ->
  bfsFdToInum fd st = Done i st ->
  fsTell fd st = Done c st ->
  0 <= c -> c mod BYTESPERBLOCK = 0 -> c + numb <= INT_MAX ->
  fsWrite fd numb wbuf st = Done r s1 ->
  fsSeek fd c SEEK_SET s1 = Done r2 s2 ->
  fsRead fd numb rbuf s2 = Done (Val n, rbuf') s3 ->
  forall k, 0 <= k < n -> rbuf' !! Z.to_nat k = wbuf !! Z.to_nat k.
Proof.
  intros Hsound Hfd Ht Hc Hal Hmax Hw Hsk Hr k Hk.
  destruct (fsWrite_effect fd numb wbuf st r s1 i c Hsound Hfd Ht Hc Hmax Hw)
    as (Hsound1 & _ & Hbytes & _).
  pose proof (fsWrite_keeps_binding _ _ _ _ _ _ fd i Hw Hfd) as Hfd1.
  apply fsSeek_SET_Done in Hsk as (_ & i' & j & e & Hfd1' & F & L & ->).
  rewrite Hfd1 in Hfd1'. injection Hfd1' as <-.
  set (s2 := set_oft (<[j := Some (mkOFTE (inum e) c (refs e))]> (g_oft s1)) s1) in *.
  assert (Hfd2 : bfsFdToInum fd s2 = Done i s2).
  { unfold s2. rewrite bfsFdToInum_set_oft by exact L. rewrite Hfd1. reflexivity. }
  assert (Ht2 : bfsTell fd s2 = Done c s2) by (apply (tell_after_set fd s1 i j e c Hfd1 F L)).
  assert (Hwhole2 : blocksWhole i s2) by apply Hsound1.
  apply fsRead_Done in Hr
    as (Hpos & Hn & Hb & i' & c' & fbn' & tb & Hfd' & Ht' & Hloop & _ & -> & _).
  rewrite Hfd2 in Hfd'. injection Hfd' as <-. rewrite Ht2 in Ht'. injection Ht' as <-.
  destruct (cursor_split c Hc) as (Eq & Er & _). rewrite Eq, Er in Hloop.
  apply (fsRead_loop_staged fd i s2 c numb) in Hloop as (Hlen & Hcont & _); try assumption.
  rewrite memcpy_lookup_in by lia.
  replace (0 + (k - 0)) with k by lia.
  rewrite Hcont by lia. rewrite readOffset_aligned by exact Hal.
  change (byteAt i (c + k) s2) with (byteAt i (c + k) s1). apply Hbytes. lia.
Qed.

Lemma X18_aligned_write_seek_read_witness :
  (replicate 88 88 ++ replicate 212 7) !! Z.to_nat 87 = replicate 300 88 !! Z.to_nat 87.
Proof.
  refine (X18_aligned_write_seek_read 0 300 (replicate 300 88) opened1 0
            (after (fsWrite 0 300 (replicate 300 88)) opened1) 0 written300
            (replicate 300 7) 88 (replicate 88 88 ++ replicate 212 7)
            (after (fsRead 0 300 (replicate 300 7)) written300) 1 0
            _ _ _ _ _ _ _ _ _ 87 _).
  - exact opened1_sound.
  - reflexivity.
  - reflexivity.
  - lia.
  - reflexivity.
  - unfold INT_MAX. lia.
  - vm_compute. reflexivity.
  - vm_compute. reflexivity.
  - vm_compute. reflexivity.
  - lia.
Defined.

(** ** fsRead: the returned count *)

(** X19: the count a returning read gives, on a file with whole blocks: the
    request itself when the first byte delivered is 0, else the request less
    the number of zero bytes at the end of the block that holds the last
    requested offset. *)
Theorem X19_read_count fd numb buf st n buf' st' i c :
  blocksWhole i st ->
  bfsFdToInum fd st = Done i st ->
  fsTell fd st = Done c st ->
  0 <= c -> c + numb <= INT_MAX ->
  fsRead fd numb buf st = Done (Val n, buf') st' ->
  (byteAt i (readOffset c 0) st = Some 0 /\ n = numb) \/
  (exists d blk,
     byteAt i (readOffset c 0) st <> Some 0 /\
     chainOf i st !! ((c + numb - 1) / BYTESPERBLOCK) = Some d /\
     disk st !! d = Some blk /\
     n = numb - emptyCountOf blk).
Proof.
  intros Hwhole Hfd Ht Hc Hmax H. unfold fsTell in Ht.
  apply fsRead_Done in H
    as (Hpos & Hn & Hb & i' & c' & fbn' & tb & Hfd' & Ht' & Hloop & Hcase & _ & _).
  rewrite Hfd in Hfd'. injection Hfd' as <-. rewrite Ht in Ht'. injection Ht' as <-.
  destruct (cursor_split c Hc) as (Eq & Er & _). rewrite Eq, Er in Hloop.
  apply (fsRead_loop_staged fd i st c numb) in Hloop as (Hlen & Hcont & Hlast);
    try assumption.
  specialize (Hcont 0 ltac:(lia)). simpl in Hcont.
  destruct Hcase as [(rest & -> & ->) | (b0 & rest & cb & -> & Hb0 & Hrd & ->)].
  - left. rewrite <- Hcont. auto.
  - right. apply bfsRead_chainOf in Hrd as (d & Hch & Hd). rewrite Hlast in Hch.
    exists d, cb. rewrite <- Hcont. simpl.
    repeat split; try assumption. congruence.
Qed.

Lemma X19_read_count_witness :
  (byteAt 1 (readOffset 0 0) written300 = Some 0 /\ 88 = 300) \/
  (exists d blk,
     byteAt 1 (readOffset 0 0) written300 <> Some 0 /\
     chainOf 1 written300 !! ((0 + 300 - 1) / BYTESPERBLOCK) = Some d /\
     disk written300 !! d = Some blk /\
     88 = 300 - emptyCountOf blk).
Proof.
  apply (X19_read_count 0 300 (replicate 300 7) written300 88
           (replicate 88 88 ++ replicate 212 7)
           (after (fsRead 0 300 (replicate 300 7)) written300) 1 0).
  - exact written300_whole.
  - reflexivity.
  - reflexivity.
  - lia.
  - unfold INT_MAX. lia.
  - vm_compute. reflexivity.
Defined.

(** ** fsRead: when it returns *)

(** The loop of [fsRead] falls through whenever the descriptor is bound and
    every block from the cursor's to that of the last requested offset is
    mapped, on the device and starts at or below the size. *)
Lemma fsRead_loop_total fd i st ino c numb :
  bfsFdToInum fd st = Done i st ->
  inodes st !! i = Some ino ->
  0 <= c -> c + numb <= INT_MAX ->
  (forall f, c / BYTESPERBLOCK <= f <= (c + numb - 1) / BYTESPERBLOCK ->
     (exists d, chain ino !! f = Some d /\ is_Some (disk st !! d)) /\
     f * BYTESPERBLOCK <= isize ino) ->
  forall fuel nb cidx bidx fbn tb,
    (Z.to_nat nb <= fuel)%nat ->
    writePos c numb nb cidx bidx fbn ->
    exists fbn' tb',
      fsRead_loop fuel fd i nb cidx fbn tb st = Done (ReadFallthrough fbn' tb') st.
Proof.
  intros Hfd Hi Hc Hmax Hrange.
  induction fuel as [|fuel IH]; intros nb cidx bidx fbn tb Hfuel Hpos.
  { simpl. destruct (Z.leb_spec nb 0); [eexists _, _; reflexivity | lia]. }
  simpl. destruct (Z.leb_spec nb 0) as [Hn|Hn]; [eexists _, _; reflexivity|].
  destruct (writePos_step _ _ _ _ _ _ Hc Hmax Hn Hpos) as (Hw32 & Hlo & Hhi & Hpos').
  pose proof Hpos as (Hci & _).
  destruct (blockCount_range cidx nb Hn Hci) as (Hr1 & _).
  assert (Hin : c / BYTESPERBLOCK <= fbn <= (c + numb - 1) / BYTESPERBLOCK).
  { split; [exact Hlo|]. apply Z.div_le_lower_bound; unfold BYTESPERBLOCK in *; lia. }
  destruct (Hrange fbn Hin) as ((d & Hch & [rb Hrb]) & Hsz).
  rewrite (bind_eq_Done _ _ _ _ _ (bfsRead_run _ _ _ _ _ _ Hi Hch Hrb)).
  assert (Hz : (if 0 <? cidx then 0 else cidx) = 0)
    by (destruct (Z.ltb_spec 0 cidx); lia).
  rewrite Hz. simpl.
  assert (Hs : fsSize fd st = Done (isize ino) st).
  { unfold fsSize. rewrite (bind_eq_Done _ _ _ _ _ Hfd).
    unfold bfsGetSize. rewrite Hi. reflexivity. }
  rewrite (bind_eq_Done _ _ _ _ _ Hs).
  assert (Hfb : 0 <= fbn).
  { apply Z.le_trans with (c / BYTESPERBLOCK); [|exact Hlo].
    apply Z.div_pos; unfold BYTESPERBLOCK; lia. }
  rewrite (wrap32_id (fbn * BYTESPERBLOCK)) by (unfold BYTESPERBLOCK, INT_MAX in *; lia).
  destruct (Z.ltb_spec (isize ino) (fbn * BYTESPERBLOCK)) as [?|_]; [lia|].
  rewrite Hw32.
  apply (IH _ 0 (bidx + blockCount cidx nb) (fbn + 1)); [lia | exact Hpos'].
Qed.

(** The state a relative seek by [n >= 0] leads to, for a bound descriptor
    of a known inode. *)
Lemma fsSeek_CUR_total fd n st i ino :
  0 <= n -> bfsFdToInum fd st = Done i st -> inodes st !! i = Some ino ->
  exists st', fsSeek fd n SEEK_CUR st = Done 0 st'.
Proof.
  intros Hn Hfd Hi.
  destruct (bfsFdToInum_Done _ _ _ _ Hfd) as (_ & _ & e & L & I).
  destruct (findSlot_bound _ _ _ L) as [k F]. rewrite I in F.
  destruct (findSlot_Some _ _ _ F) as (ek & Lk & Ik).
  assert (Hs : fsSize fd st = Done (isize ino) st).
  { unfold fsSize. rewrite (bind_eq_Done _ _ _ _ _ Hfd).
    unfold bfsGetSize. rewrite Hi. reflexivity. }
  eexists. apply (fsSeek_run fd n SEEK_CUR st i k ek (isize ino) Hn); auto.
Qed.

(** What the block loop hands to the end of [fsRead] under the conditions of
    [fsRead_loop_total], for a file with whole blocks. *)
Lemma fsRead_loop_run fd i st ino c numb :
  bfsFdToInum fd st = Done i st ->
  inodes st !! i = Some ino ->
  blocksWhole i st ->
  0 <= c -> c + numb <= INT_MAX -> 0 < numb ->
  (forall f, c / BYTESPERBLOCK <= f <= (c + numb - 1) / BYTESPERBLOCK ->
     is_Some (chain ino !! f) /\ f * BYTESPERBLOCK <= isize ino) ->
  exists fbn' b0 rest,
    fsRead_loop (Z.to_nat numb) fd i numb (Z.rem c BYTESPERBLOCK)
      (Z.quot c BYTESPERBLOCK) [] st = Done (ReadFallthrough fbn' (b0 :: rest)) st /\
    byteAt i (readOffset c 0) st = Some b0 /\
    fbn' - 1 = (c + numb - 1) / BYTESPERBLOCK.
Proof.
  intros Hfd Hi Hwhole Hc Hmax Hn Hrange.
  destruct (cursor_split c Hc) as (Eq & Er & Hr & Hdm). rewrite Eq, Er.
  assert (Hrange' : forall f, c / BYTESPERBLOCK <= f <= (c + numb - 1) / BYTESPERBLOCK ->
     (exists d, chain ino !! f = Some d /\ is_Some (disk st !! d)) /\
     f * BYTESPERBLOCK <= isize ino).
  { intros f Hf. destruct (Hrange f Hf) as ([d Hd] & Hsz). split; [|exact Hsz].
    exists d. split; [exact Hd|].
    rewrite <- (chainOf_inode _ _ _ Hi) in Hd.
    destruct (Hwhole _ _ Hd) as (blk & Hblk & _). eauto. }
  destruct (fsRead_loop_total fd i st ino c numb Hfd Hi Hc Hmax Hrange'
              (Z.to_nat numb) numb (c mod BYTESPERBLOCK) 0 (c / BYTESPERBLOCK) []
              ltac:(lia) ltac:(unfold writePos; repeat split; lia))
    as (fbn' & tb & Hloop).
  destruct (fsRead_loop_staged fd i st c numb _ fbn' tb st Hwhole Hc Hmax Hn Hloop)
    as (Hlen & Hcont & Hlast).
  specialize (Hcont 0 ltac:(lia)).
  destruct tb as [|b0 rest]; [simpl in Hlen; lia|].
  exists fbn', b0, rest. rewrite <- Hcont. auto.
Qed.

(** X20: a read returns a byte count whenever it has what it needs: a bound
    descriptor with a non-negative cursor, a buffer of at least [numb] > 0
    bytes, a file with whole blocks whose blocks from the cursor's to that of
    the last requested offset are mapped and start at or below the size, and
    either a first delivered byte 0 or no more than [numb] zero bytes at the
    end of the last of these blocks. *)
Theorem X20_read_returns_count fd numb buf st i c sz :
  bfsFdToInum fd st = Done i st ->
  fsTell fd st = Done c st ->
  sizeOf i st = Some sz ->
  blocksWhole i st ->
  0 <= c -> c + numb <= INT_MAX ->
  0 < numb <= Z.of_nat (length buf) ->
  (forall f, c / BYTESPERBLOCK <= f <= (c + numb - 1) / BYTESPERBLOCK ->
     is_Some (chainOf i st !! f) /\ f * BYTESPERBLOCK <= sz) ->
  (byteAt i (readOffset c 0) st = Some 0 \/
   forall d blk, chainOf i st !! ((c + numb - 1) / BYTESPERBLOCK) = Some d ->
     disk st !! d = Some blk -> emptyCountOf blk <= numb) ->
  exists n buf' st', fsRead fd numb buf st = Done (Val n, buf') st'.
Proof.
  intros Hfd Ht Hsz Hwhole Hc Hmax Hnb Hrange Htrim.
  unfold sizeOf in Hsz. destruct (inodes st !! i) as [ino|] eqn:Hi; [|discriminate].
  injection Hsz as <-. rewrite (chainOf_inode _ _ _ Hi) in Hrange.
  destruct (fsRead_loop_run fd i st ino c numb Hfd Hi Hwhole Hc Hmax ltac:(lia) Hrange)
    as (fbn' & b0 & rest & Hloop & Hb0 & Hlast).
  unfold fsRead. destruct (Z.leb_spec numb 0) as [?|_]; [lia|].
  unfold fsTell in Ht.
  rewrite (bind_eq_Done _ _ _ _ _ Hfd), (bind_eq_Done _ _ _ _ _ Ht).
  rewrite (bind_eq_Done _ _ _ _ _ Hloop).
  assert (Hfin : forall total, 0 <= total <= numb ->
    exists n buf' st',
      (if (total <? 0) || (Z.of_nat (length buf) <? total) then undefined
       else fsSeek fd total SEEK_CUR ;;; ret (Val total, memcpy buf 0 (b0 :: rest) 0 total)) st
      = Done (Val n, buf') st').
  { intros total Htot.
    destruct (Z.ltb_spec total 0) as [?|_]; [lia|].
    destruct (Z.ltb_spec (Z.of_nat (length buf)) total) as [?|_]; [lia|]. simpl.
    destruct (fsSeek_CUR_total fd total st i ino ltac:(lia) Hfd Hi) as (st' & Hsk).
    exists total, (memcpy buf 0 (b0 :: rest) 0 total), st'.
    unfold bind at 1. rewrite Hsk. reflexivity. }
  destruct (Z.eqb_spec b0 0) as [->|Hne].
  - rewrite (bind_eq_Done _ _ _ _ _ (eq_refl : ret numb st = Done numb st)).
    apply Hfin. lia.
  - destruct Htrim as [Hz|Htrim]; [congruence|].
    assert (Hin : c / BYTESPERBLOCK <= (c + numb - 1) / BYTESPERBLOCK
                  <= (c + numb - 1) / BYTESPERBLOCK).
    { split; [|lia]. apply Z.div_le_mono; unfold BYTESPERBLOCK; lia. }
    destruct (Hrange _ Hin) as ([d Hd] & _).
    pose proof Hd as Hd'. rewrite <- (chainOf_inode _ _ _ Hi) in Hd'.
    destruct (Hwhole _ _ Hd') as (blk & Hblk & _).
    rewrite Hlast.
    assert (Hcb : (let* countBuffer := bfsRead i ((c + numb - 1) / BYTESPERBLOCK) in
                   ret (numb - emptyCountOf countBuffer)) st
                  = Done (numb - emptyCountOf blk) st).
    { rewrite (bind_eq_Done _ _ _ _ _ (bfsRead_run _ _ _ _ _ _ Hi Hd Hblk)). reflexivity. }
    rewrite (bind_eq_Done _ _ _ _ _ Hcb).
    apply Hfin. pose proof (countZeros_nonneg (rev blk)).
    specialize (Htrim d blk Hd' Hblk). unfold emptyCountOf in *. lia.
Qed.

Lemma X20_read_returns_count_witness :
  exists n buf' st', fsRead 0 300 (replicate 300 7) written300 = Done (Val n, buf') st'.
Proof.
  apply (X20_read_returns_count 0 300 (replicate 300 7) written300 1 0 1024).
  - reflexivity.
  - reflexivity.
  - reflexivity.
  - exact written300_whole.
  - lia.
  - unfold INT_MAX. lia.
  - rewrite length_replicate. lia.
  - intros f Hf. assert (f = 0) as ->.
    { assert (E1 : 0 / BYTESPERBLOCK = 0) by reflexivity.
      assert (E2 : (0 + 300 - 1) / BYTESPERBLOCK = 0) by reflexivity.
      rewrite E1, E2 in Hf. lia. }
    split; [vm_compute; eauto | vm_compute; discriminate].
  - right. intros d blk Hd Hblk. vm_compute in Hd. injection Hd as <-.
    vm_compute in Hblk. injection Hblk as <-. vm_compute. discriminate.
Defined.

(** X21: a read whose trimmed count falls below zero does not return: when
    the first delivered byte is not 0 and the block of the last requested
    offset ends in more than [numb] zero bytes, the byte count handed to the
    final [memcpy] is negative, and the call has no defined result. *)
Theorem X21_read_trim_below_zero fd numb buf st i c sz b0 d blk :
  bfsFdToInum fd st = Done i st ->
  fsTell fd st = Done c st ->
  sizeOf i st = Some sz ->
  blocksWhole i st ->
  0 <= c -> c + numb <= INT_MAX -> 0 < numb ->
  (forall f, c / BYTESPERBLOCK <= f <= (c + numb - 1) / BYTESPERBLOCK ->
     is_Some (chainOf i st !! f) /\ f * BYTESPERBLOCK <= sz) ->
  byteAt i (readOffset c 0) st = Some b0 -> b0 <> 0 ->
  chainOf i st !! ((c + numb - 1) / BYTESPERBLOCK) = Some d ->
  disk st !! d = Some blk ->
  numb < emptyCountOf blk ->
  fsRead fd numb buf st = Undefined.
Proof.
  intros Hfd Ht Hsz Hwhole Hc Hmax Hn Hrange Hb Hne Hd Hblk Hz.
  unfold sizeOf in Hsz. destruct (inodes st !! i) as [ino|] eqn:Hi; [|discriminate].
  injection Hsz as <-. rewrite (chainOf_inode _ _ _ Hi) in Hrange, Hd.
  destruct (fsRead_loop_run fd i st ino c numb Hfd Hi Hwhole Hc Hmax Hn Hrange)
    as (fbn' & b0' & rest & Hloop & Hb0 & Hlast).
  rewrite Hb in Hb0. injection Hb0 as <-.
  unfold fsRead. destruct (Z.leb_spec numb 0) as [?|_]; [lia|].
  unfold fsTell in Ht.
  rewrite (bind_eq_Done _ _ _ _ _ Hfd), (bind_eq_Done _ _ _ _ _ Ht).
  rewrite (bind_eq_Done _ _ _ _ _ Hloop).
  destruct (Z.eqb_spec b0 0) as [?|_]; [contradiction|].
  rewrite Hlast.
  assert (Hcb : (let* countBuffer := bfsRead i ((c + numb - 1) / BYTESPERBLOCK) in
                 ret (numb - emptyCountOf countBuffer)) st
                = Done (numb - emptyCountOf blk) st).
  { rewrite (bind_eq_Done _ _ _ _ _ (bfsRead_run _ _ _ _ _ _ Hi Hd Hblk)). reflexivity. }
  rewrite (bind_eq_Done _ _ _ _ _ Hcb).
  destruct (Z.ltb_spec (numb - emptyCountOf blk) 0) as [_|?]; [reflexivity | lia].
Qed.

Lemma written10_whole : blocksWhole 1 written10.
Proof.
  apply (fsSeek_fileSound 0 0 SEEK_SET
           (after (fsWrite 0 10 (replicate 10 88)) opened1) 0); [reflexivity|].
  apply (fsWrite_effect 0 10 (replicate 10 88) opened1 0 _ 1 0).
  - exact opened1_sound.
  - reflexivity.
  - reflexivity.
  - lia.
  - unfold INT_MAX. lia.
  - vm_compute. reflexivity.
Qed.

Lemma X21_read_trim_below_zero_witness :
  fsRead 0 10 (replicate 10 7) written10 = Undefined.
Proof.
  refine (X21_read_trim_below_zero 0 10 (replicate 10 7) written10 1 0 1024 88 10
            (replicate 10 88 ++ replicate 502 0) _ _ _ _ _ _ _ _ _ _ _ _ _).
  - reflexivity.
  - reflexivity.
  - reflexivity.
  - exact written10_whole.
  - lia.
  - unfold INT_MAX. lia.
  - lia.
  - intros f Hf. assert (f = 0) as ->.
    { assert (E1 : 0 / BYTESPERBLOCK = 0) by reflexivity.
      assert (E2 : (0 + 10 - 1) / BYTESPERBLOCK = 0) by reflexivity.
      rewrite E1, E2 in Hf. lia. }
    split; [vm_compute; eauto | vm_compute; discriminate].
  - reflexivity.
  - discriminate.
  - reflexivity.
  - vm_compute. reflexivity.
  - vm_compute. reflexivity.
Defined.
